(** * Report screen: CSV export pipeline and debounced filter form

    A shallow embedding of [src/lib/csvExport.js], [src/hooks/useDebounce.js],
    the [FiltersForm] component and the export click handler of [App],
    followed by the properties of the specification that were checked
    against them.

    Conventions of the embedding.
    - JavaScript values are the primitives of [prim], [Date] objects, valid
      or invalid, and what a lookup finds on [Object.prototype]. A number
      is integer-valued and below 10^21 in magnitude, where [String] prints
      its plain decimal digits; NaN, fractional and larger numbers are
      outside this model.
    - An object whose key order matters (a CSV row) is a plain object:
      the association list of its own properties, with distinct string
      keys, in the order they were created, on top of an unmodified
      [Object.prototype]. [JS.keys] gives the order of [Object.keys] and
      [JS.prop] looks a key up as [o[k]] does, [Object.prototype]
      included. An object used as a record of fields (the filter state)
      is a [gmap].
    - Time is a logical clock in milliseconds; a pending [setTimeout] is a
      deadline together with the value its callback captured, and it fires
      as soon as the clock reaches the deadline. The delay a timer runs for
      is what [setTimeout] makes of its argument, a signed 32-bit number.
    - Code that can raise returns an [outcome]; code that also acts on the
      screen lives in the monad [M], a state transformer over the [world].
    - [console] logging is left out. *)

From stdpp Require Import base strings list gmap pretty.
From Stdlib Require Import ZArith Lia Ascii String.

Open Scope Z_scope.
Open Scope string_scope.

(** ** JavaScript primitives *)

Inductive prim : Type :=
| PUndefined
| PNull
| PBool (b : bool)
| PNum (n : Z)
| PStr (s : string).

#[global] Instance prim_eq_dec : EqDecision prim.
Proof. solve_decision. Defined.

(** A cell value: a primitive; a [Date] object with its time value, or an
    invalid one (its time value is NaN); or what [Object.prototype] holds
    under a name, a built-in function or the prototype itself. *)
Inductive value : Type :=
| VPrim (p : prim)
| VDate (t : Z)
| VInvalidDate
| VBuiltin (name : string).

#[global] Instance value_eq_dec : EqDecision value.
Proof. solve_decision. Defined.

Module JS.

(** [value == null] *)
Definition nullish (p : prim) : bool :=
  match p with
  | PUndefined | PNull => true
  | _ => false
  end.

(** [ToBoolean] *)
Definition truthy (p : prim) : bool :=
  match p with
  | PUndefined | PNull => false
  | PBool b => b
  | PNum n => negb (Z.eqb n 0)
  | PStr s => negb (String.eqb s "")
  end.

(** [a || b] *)
Definition or (a b : prim) : prim := if truthy a then a else b.

(** [a ?? b] *)
Definition coalesce (a b : prim) : prim := if nullish a then b else a.

(** [a === b] on primitives *)
Definition strict_eq (a b : prim) : bool := bool_decide (a = b).

(** [String(p)] *)
Definition toString (p : prim) : string :=
  match p with
  | PUndefined => "undefined"
  | PNull => "null"
  | PBool true => "true"
  | PBool false => "false"
  | PNum n => pretty n
  | PStr s => s
  end.

Definition comma : ascii := ","%char.
Definition dquote : ascii := "034"%char.
Definition newline : ascii := "010"%char.

(** [s.includes(c)] for a one-character needle *)
Fixpoint includes (c : ascii) (s : string) : bool :=
  match s with
  | EmptyString => false
  | String a s' => if Ascii.eqb a c then true else includes c s'
  end.

(** [parts.join(sep)] on an array of strings *)
Fixpoint join (sep : string) (parts : list string) : string :=
  match parts with
  | [] => ""
  | [p] => p
  | p :: rest => p +:+ sep +:+ join sep rest
  end.

(** [s.split(c)[0]]: the text before the first [c] *)
Fixpoint before (c : ascii) (s : string) : string :=
  match s with
  | EmptyString => ""
  | String a s' => if Ascii.eqb a c then "" else String a (before c s')
  end.

(** Plain objects: the own properties, in the order they were created. *)
Definition obj : Type := list (string * value).

Definition decimalDigit (c : ascii) : option N :=
  let n := N_of_ascii c in
  if (48 <=? n)%N && (n <=? 57)%N then Some (n - 48)%N else None.

Fixpoint decimalValue (s : string) (acc : N) : option N :=
  match s with
  | EmptyString => Some acc
  | String c s' =>
      match decimalDigit c with
      | Some d => decimalValue s' (10 * acc + d)%N
      | None => None
      end
  end.

(** The array index a key is: a decimal numeral without leading zero that
    stands for a number below 2^32 - 1. *)
Definition arrayIndex (k : string) : option N :=
  match k with
  | EmptyString => None
  | String c rest =>
      if Ascii.eqb c "0" && negb (String.eqb rest "") then None
      else match decimalValue k 0 with
           | Some n => if (n <? 4294967295)%N then Some n else None
           | None => None
           end
  end.

Fixpoint insertIndex (n : N) (k : string) (l : list (N * string))
  : list (N * string) :=
  match l with
  | [] => [(n, k)]
  | (m, k') :: l' =>
      if (n <? m)%N then (n, k) :: l else (m, k') :: insertIndex n k l'
  end.

(** The keys that are array indices, in ascending order. *)
Fixpoint indexKeys (o : obj) : list (N * string) :=
  match o with
  | [] => []
  | (k, _) :: o' =>
      match arrayIndex k with
      | Some n => insertIndex n k (indexKeys o')
      | None => indexKeys o'
      end
  end.

(** The other keys, in creation order. *)
Fixpoint namedKeys (o : obj) : list string :=
  match o with
  | [] => []
  | (k, _) :: o' =>
      match arrayIndex k with
      | Some _ => namedKeys o'
      | None => k :: namedKeys o'
      end
  end.

(** [Object.keys(o)]: array indices ascending, then the rest as created *)
Definition keys (o : obj) : list string :=
  ((indexKeys o).*2 ++ namedKeys o)%list.

(** The own property of a key, if there is one. *)
Fixpoint ownProp (o : obj) (k : string) : option value :=
  match o with
  | [] => None
  | (k', v) :: o' => if String.eqb k' k then Some v else ownProp o' k
  end.

(** The property names of [Object.prototype]. *)
Definition objectPrototypeKeys : list string :=
  [ "constructor"; "hasOwnProperty"; "isPrototypeOf"; "propertyIsEnumerable";
    "toLocaleString"; "toString"; "valueOf"; "__proto__";
    "__defineGetter__"; "__defineSetter__"; "__lookupGetter__";
    "__lookupSetter__" ].

Definition inherited (k : string) : bool :=
  existsb (String.eqb k) objectPrototypeKeys.

(** [o[k]]: the own property, else what the prototype holds under the
    name, else [undefined] *)
Definition prop (o : obj) (k : string) : value :=
  match ownProp o k with
  | Some v => v
  | None => if inherited k then VBuiltin k else VPrim PUndefined
  end.

(** [s.includes(needle)] *)
Fixpoint includesText (needle s : string) : bool :=
  String.prefix needle s
  || match s with
     | EmptyString => false
     | String _ s' => includesText needle s'
     end.

End JS.

(** ** The host environment

    What the browser supplies and the code only calls. *)
Record Host : Type := {
  (** [new Date(x).toLocaleDateString()] *)
  toLocaleDateString : prim → string;
  (** [date.toISOString()] for a time value *)
  toISOString : Z → string;
  (** the message of the RangeError [toISOString] raises on an invalid Date *)
  invalidTimeMessage : string;
  (** [String(Object.prototype[name])] *)
  builtinText : string → string;
  (** [new Date().toISOString()] at the moment of the export *)
  nowISOString : string;
  (** the Blob, object URL and anchor click sequence of [downloadFile]:
      [None] when it runs through, [Some msg] when a step raises *)
  deliver : string → string → string → option string
}.

(** ** The exception monad over the screen state *)

Record error : Type := Error { message : string }.

Record world : Type := World {
  exportLoading : bool;
  exportMessage : string;
  (** every entry into [downloadFile]: content, filename, MIME type *)
  downloadCalls : list (string * string * string);
  (** delays of the pending [setTimeout] callbacks that clear the message *)
  clearTimers : list nat
}.

Inductive outcome (A : Type) : Type :=
| Returned (a : A)
| Thrown (e : error).
Arguments Returned {A} a.
Arguments Thrown {A} e.

(** What follows when nothing was thrown. *)
Definition andThen {A B} (r : outcome A) (k : A → outcome B) : outcome B :=
  match r with
  | Returned a => k a
  | Thrown e => Thrown e
  end.

(** The results of a [map] whose callback can raise: the first error thrown
    ends it. *)
Fixpoint collect {A} (l : list (outcome A)) : outcome (list A) :=
  match l with
  | [] => Returned []
  | r :: l' => andThen r (λ a, andThen (collect l') (λ rest, Returned (a :: rest)))
  end.

Definition M (A : Type) : Type := world → outcome A * world.

(** A computation that does not touch the screen state. *)
Definition pure {A} (r : outcome A) : M A := λ w, (r, w).

Definition ret {A} (a : A) : M A := λ w, (Returned a, w).

Definition throw {A} (e : error) : M A := λ w, (Thrown e, w).

Definition bind {A B} (m : M A) (k : A → M B) : M B :=
  λ w, match m w with
       | (Returned a, w') => k a w'
       | (Thrown e, w') => (Thrown e, w')
       end.

(** [try { body } catch (e) { handler e }] *)
Definition try_catch {A} (body : M A) (handler : error → M A) : M A :=
  λ w, match body w with
       | (Returned a, w') => (Returned a, w')
       | (Thrown e, w') => handler e w'
       end.

(** [try { body } finally { fin }] *)
Definition try_finally {A} (body : M A) (fin : M unit) : M A :=
  λ w, let '(r, w') := body w in
       match fin w' with
       | (Returned _, w'') => (r, w'')
       | (Thrown e, w'') => (Thrown e, w'')
       end.

#[global] Instance M_ret : MRet M := @ret.
#[global] Instance M_bind : MBind M := λ A B k m, bind m k.

Definition setExportLoading (b : bool) : M unit :=
  λ w, (Returned (), World b (exportMessage w) (downloadCalls w) (clearTimers w)).

Definition setExportMessage (s : string) : M unit :=
  λ w, (Returned (), World (exportLoading w) s (downloadCalls w) (clearTimers w)).

(** [setTimeout(() => setExportMessage(''), delay)] *)
Definition clearMessageAfter (delay : nat) : M unit :=
  λ w, (Returned (),
        World (exportLoading w) (exportMessage w) (downloadCalls w)
              (clearTimers w ++ [delay])).

Definition enterDownload (content filename mimeType : string) : M unit :=
  λ w, (Returned (),
        World (exportLoading w) (exportMessage w)
              (downloadCalls w ++ [(content, filename, mimeType)])
              (clearTimers w)).

(** ** csvExport.js *)

Module Csv.
Import JS.

(** The global replace of [escapeCSVValue]: every double quote of the
    text is written twice. *)
Fixpoint doubleQuotes (s : string) : string :=
  match s with
  | EmptyString => ""
  | String a s' =>
      if Ascii.eqb a dquote
      then String dquote (String dquote (doubleQuotes s'))
      else String a (doubleQuotes s')
  end.

Definition escapeCSVValue (v : prim) : string :=
  if nullish v then ""
  else
    let stringValue := toString v in
    if includes comma stringValue
       || includes dquote stringValue
       || includes newline stringValue
    then
      let escapedValue := doubleQuotes stringValue in
      String dquote (escapedValue +:+ String dquote "")
    else stringValue.

(** One position of the pattern [/^\d{4}-\d{2}-\d{2}T\d{2}:\d{2}:\d{2}/]. *)
Inductive pat : Type :=
| Digit
| Lit (c : ascii).

Definition isDigit (c : ascii) : bool :=
  let n := nat_of_ascii c in (48 <=? n)%nat && (n <=? 57)%nat.

Definition patMatches (p : pat) (c : ascii) : bool :=
  match p with
  | Digit => isDigit c
  | Lit l => Ascii.eqb c l
  end.

Fixpoint matchPrefix (ps : list pat) (s : string) : bool :=
  match ps, s with
  | [], _ => true
  | _ :: _, EmptyString => false
  | p :: ps', String c s' => patMatches p c && matchPrefix ps' s'
  end.

Definition isoTimestampPattern : list pat :=
  [Digit; Digit; Digit; Digit; Lit "-"; Digit; Digit; Lit "-"; Digit; Digit;
   Lit "T"; Digit; Digit; Lit ":"; Digit; Digit; Lit ":"; Digit; Digit]%char.

(** The cell of one value: the callback of the inner [map]. On an invalid
    Date [toISOString] raises. A built-in is no Date and no string, so its
    [String] form is escaped. *)
Definition cell (h : Host) (v : value) : outcome string :=
  match v with
  | VInvalidDate => Thrown (Error (invalidTimeMessage h))
  | VDate t => Returned (escapeCSVValue (PStr (before "T" (toISOString h t))))
  | VPrim (PStr s) =>
      if matchPrefix isoTimestampPattern s
      then Returned (escapeCSVValue (PStr (toLocaleDateString h (PStr s))))
      else Returned (escapeCSVValue (PStr s))
  | VPrim p => Returned (escapeCSVValue p)
  | VBuiltin name => Returned (escapeCSVValue (PStr (builtinText h name)))
  end.

Definition rowCells (h : Host) (csvHeaders : list string) (row : obj)
  : outcome (list string) :=
  collect (map (λ header, cell h (prop row header)) csvHeaders).

Definition convertToCSV (h : Host) (data : option (list obj))
    (headers : option (list string)) : outcome string :=
  match data with
  | None | Some [] => Returned ""
  | Some ((first :: _) as rows) =>
      let csvHeaders := default (keys first) headers in
      let headerRow := join "," (map (λ header, escapeCSVValue (PStr header)) csvHeaders) in
      andThen
        (collect
           (map (λ row, andThen (rowCells h csvHeaders row)
                                (λ cells, Returned (join "," cells)))
                rows))
        (λ dataRows,
           let csvContent := join (String newline "") (headerRow :: dataRows) in
           Returned csvContent)
  end.

Definition downloadFile (h : Host) (content filename mimeType : string)
  : M unit :=
  enterDownload content filename mimeType ;;
  try_catch
    (match deliver h content filename mimeType with
     | None => ret ()
     | Some msg => throw (Error msg)
     end)
    (λ _, throw (Error "Failed to download file")).

Record exportResult : Type := ExportResult {
  success : bool;
  filename : string
}.

Definition exportAsCSV (h : Host) (data : option (list obj))
    (baseFilename : string) (headers : option (list string))
  : M exportResult :=
  try_catch
    (match data with
     | None | Some [] => throw (Error "No data to export")
     | Some _ =>
         csvContent ← pure (convertToCSV h data headers);
         if String.eqb csvContent ""
         then throw (Error "Failed to convert data to CSV format")
         else
           let date := before "T" (nowISOString h) in
           let filename := baseFilename +:+ "-" +:+ date +:+ ".csv" in
           downloadFile h csvContent filename "text/csv" ;;
           ret (ExportResult true filename)
     end)
    (λ error, throw (Error ("CSV export failed: " +:+ message error))).

Record report : Type := Report {
  id : prim;
  title : prim;
  status : prim;
  department : prim;
  priority : prim;
  author : prim;
  createdAt : prim;
  updatedAt : prim;
  recordCount : prim;
  fileSize : prim;
  executionTime : prim
}.

Definition formatReport (h : Host) (r : report) : obj :=
  [ ("ID", VPrim (id r));
    ("Title", VPrim (title r));
    ("Status", VPrim (status r));
    ("Department", VPrim (department r));
    ("Priority", VPrim (priority r));
    ("Author", VPrim (author r));
    ("Created Date",
      VPrim (PStr (if truthy (createdAt r)
                   then toLocaleDateString h (createdAt r) else "")));
    ("Updated Date",
      VPrim (PStr (if truthy (updatedAt r)
                   then toLocaleDateString h (updatedAt r) else "")));
    ("Record Count", VPrim (or (recordCount r) (PStr "")));
    ("File Size", VPrim (or (fileSize r) (PStr "")));
    ("Execution Time", VPrim (or (executionTime r) (PStr ""))) ].

Definition formatReportsForCSV (h : Host) (reports : option (list report))
  : list obj :=
  match reports with
  | None | Some [] => []
  | Some rs => map (formatReport h) rs
  end.

Definition REPORTS_CSV_HEADERS : list string :=
  [ "ID"; "Title"; "Status"; "Department"; "Priority"; "Author";
    "Created Date"; "Updated Date"; "Record Count"; "File Size";
    "Execution Time" ].

End Csv.

(** ** App: the export click handler *)

Module App.
Import JS Csv.

Definition handleExportCSV (h : Host) (data : option (list report))
  : M unit :=
  try_finally
    (try_catch
       (setExportLoading true ;;
        setExportMessage "" ;;
        match data with
        | None | Some [] => setExportMessage "No data to export"
        | Some rs =>
            let formattedData := formatReportsForCSV h data in
            result ← exportAsCSV h (Some formattedData) "reports-export"
                                 (Some REPORTS_CSV_HEADERS);
            if success result
            then
              setExportMessage
                ("Successfully exported " +:+ pretty (List.length rs)
                 +:+ " reports to " +:+ filename result) ;;
              clearMessageAfter 5000
            else ret ()
        end)
       (λ error,
          setExportMessage ("Export failed: " +:+ message error) ;;
          clearMessageAfter 5000))
    (setExportLoading false).

(** The condition under which the message is shown in the error colours. *)
Definition isErrorMessage (exportMessage : string) : bool :=
  includesText "failed" exportMessage || includesText "No data" exportMessage.

(** The [disabled] attribute of the export button. *)
Definition exportDisabled (w : world) (data : option (list report)) : bool :=
  exportLoading w
  || match data with
     | None | Some [] => true
     | Some _ => false
     end.

End App.

(** ** useDebounce.js *)

Module Debounce.
Local Open Scope nat_scope.

(** The milliseconds a timer runs for: [setTimeout] reads its delay as a
    signed 32-bit number, wrapping around, and takes a negative one as 0.
    Below 2^31 this is the delay itself. *)
Definition timeoutDelay (delay : nat) : nat :=
  let wrapped := (Z.of_nat delay mod 4294967296)%Z in
  if (wrapped <? 2147483648)%Z then Z.to_nat wrapped else 0.

Section Hook.
Context {V : Type} `{EqDecision V}.

(** The state the hook keeps between renders. *)
Record hook : Type := Hook {
  (** the [useState] cell, which is also what the hook returns *)
  debouncedValue : V;
  (** the dependency array [value, delay] of the last effect run *)
  deps : V * nat;
  (** the pending [setTimeout]: its deadline and the captured value *)
  timer : option (nat * V);
  clock : nat
}.

(** First render: [useState(value)], then the effect schedules a timer. *)
Definition mount (now : nat) (value : V) (delay : nat) : hook :=
  Hook value (value, delay) (Some (now + timeoutDelay delay, value)) now.

(** A later render with the current [value] and [delay]. When a
    dependency changed, the cleanup clears the previous timer and the
    effect schedules a new one; otherwise the effect is skipped. *)
Definition useDebounce (value : V) (delay : nat) (s : hook) : hook :=
  if decide ((value, delay) = deps s) then s
  else Hook (debouncedValue s) (value, delay)
            (Some (clock s + timeoutDelay delay, value)) (clock s).

(** [dt] milliseconds pass; a timer whose deadline is reached fires and
    runs [setDebouncedValue] with the value it captured. *)
Definition elapse (dt : nat) (s : hook) : hook :=
  let now := clock s + dt in
  match timer s with
  | Some (due, v) =>
      if due <=? now then Hook v (deps s) None now
      else Hook (debouncedValue s) (deps s) (timer s) now
  | None => Hook (debouncedValue s) (deps s) None now
  end.

(** Unmount: the cleanup clears the pending timer. *)
Definition unmount (s : hook) : hook :=
  Hook (debouncedValue s) (deps s) None (clock s).

(** What happens to a mounted hook: its input is rendered, or time passes. *)
Inductive event : Type :=
| Input (v : V)
| Elapse (dt : nat).

Definition step (delay : nat) (s : hook) (e : event) : hook :=
  match e with
  | Input v => useDebounce v delay s
  | Elapse dt => elapse dt s
  end.

Definition run (delay : nat) (s : hook) (evs : list event) : hook :=
  fold_left (step delay) evs s.

(** The states after each event, in order. *)
Fixpoint trace (delay : nat) (s : hook) (evs : list event) : list hook :=
  match evs with
  | [] => []
  | e :: evs' => step delay s e :: trace delay (step delay s e) evs'
  end.

(** The input as of the last render. *)
Definition input (s : hook) : V := (deps s).1.

Definition elapsed (e : event) : nat :=
  match e with
  | Input _ => 0
  | Elapse dt => dt
  end.

(** A quiet period after input [v]: time passes, and a render, if any,
    sees [v] again. *)
Definition quiet (v : V) (evs : list event) : Prop :=
  Forall (λ e, match e with Input v' => v' = v | Elapse _ => True end) evs.




(** What every state of a mounted hook satisfies: the effect last ran
    with [delay]; a pending timer captured the current input and is due
    no later than the time a timer runs for; with no timer pending the
    output already is the input. *)
Definition settled_or_pending (delay : nat) (s : hook) : Prop :=
  (deps s).2 = delay ∧
  match timer s with
  | Some (due, v) => v = input s ∧ due ≤ clock s + timeoutDelay delay
  | None => debouncedValue s = input s
  end.

End Hook.
Arguments hook V : clear implicits.
Arguments event V : clear implicits.
End Debounce.

(** ** The FiltersForm component *)

Module FiltersForm.
Import JS.
Local Open Scope nat_scope.

(** [o[k]] on a filter object *)
Definition get (o : gmap string prim) (k : string) : prim :=
  default PUndefined (o !! k).

(** [Object.keys(o)] *)
Definition keysOf (o : gmap string prim) : list string := (map_to_list o).*1.

Definition fieldNames : list string :=
  ["status"; "department"; "priority"; "dateFrom"; "dateTo"; "search"].

(** The argument of [useState]: six defaults, then the spread of
    [initialFilters] over them. *)
Definition initialState (initialFilters : gmap string prim)
  : gmap string prim :=
  initialFilters ∪
  list_to_map
    [ ("status", or (get initialFilters "status") (PStr ""));
      ("department", or (get initialFilters "department") (PStr ""));
      ("priority", or (get initialFilters "priority") (PStr ""));
      ("dateFrom", or (get initialFilters "dateFrom") (PStr ""));
      ("dateTo", or (get initialFilters "dateTo") (PStr ""));
      ("search", or (get initialFilters "search") (PStr "")) ].

(** [{ ...filters, search: debouncedSearch }] *)
Definition currentFilters (filters : gmap string prim) (debouncedSearch : prim)
  : gmap string prim :=
  <["search" := debouncedSearch]> filters.

Definition hasChanged (initialFilters currentFilters : gmap string prim)
  : bool :=
  existsb
    (λ key, negb (strict_eq (get currentFilters key)
                            (or (get initialFilters key) (PStr ""))))
    (keysOf currentFilters).

Definition resetFilters : gmap string prim :=
  list_to_map
    [ ("status", PStr ""); ("department", PStr ""); ("priority", PStr "");
      ("dateFrom", PStr ""); ("dateTo", PStr ""); ("search", PStr "") ].

(** Which call site of [onSubmit] produced an emission. *)
Inductive origin : Type :=
| FromEffect
| FromSubmit
| FromReset.

#[global] Instance origin_eq_dec : EqDecision origin.
Proof. solve_decision. Defined.

Record form : Type := Form {
  filters : gmap string prim;
  searchHook : Debounce.hook prim;
  (** dependency array of the last run of the auto-submit effect *)
  effectDeps : list prim;
  (** the calls of [onSubmit] so far, oldest first *)
  submitted : list (origin * gmap string prim)
}.

Definition debouncedSearch (st : form) : prim :=
  Debounce.debouncedValue (searchHook st).

Definition depsOf (filters : gmap string prim) (debouncedSearch : prim)
  : list prim :=
  [ get filters "status"; get filters "department"; get filters "priority";
    get filters "dateFrom"; get filters "dateTo"; debouncedSearch ].

(** The body of the auto-submit effect. *)
Definition autoSubmit (initialFilters filters : gmap string prim)
    (debouncedSearch : prim) : list (origin * gmap string prim) :=
  let currentFilters := currentFilters filters debouncedSearch in
  if hasChanged initialFilters currentFilters
  then [(FromEffect, currentFilters)]
  else [].

Definition mount (initialFilters : gmap string prim) (now : nat) : form :=
  let filters := initialState initialFilters in
  let hook := Debounce.mount now (get filters "search") 300 in
  let debouncedSearch := Debounce.debouncedValue hook in
  Form filters hook (depsOf filters debouncedSearch)
       (autoSubmit initialFilters filters debouncedSearch).

(** A re-render and its commit: the debounce effect first, then the
    auto-submit effect when one of its dependencies changed. *)
Definition render (initialFilters : gmap string prim) (st : form) : form :=
  let hook := Debounce.useDebounce (get (filters st) "search") 300
                                   (searchHook st) in
  let debouncedSearch := Debounce.debouncedValue hook in
  let deps := depsOf (filters st) debouncedSearch in
  if decide (deps = effectDeps st)
  then Form (filters st) hook (effectDeps st) (submitted st)
  else Form (filters st) hook deps
            (submitted st ++
             autoSubmit initialFilters (filters st) debouncedSearch).

Definition handleSubmit (st : form) : form :=
  let filtersWithDebouncedSearch :=
    currentFilters (filters st) (debouncedSearch st) in
  Form (filters st) (searchHook st) (effectDeps st)
       (submitted st ++ [(FromSubmit, filtersWithDebouncedSearch)]).

Definition handleReset (st : form) : form :=
  Form resetFilters (searchHook st) (effectDeps st)
       (submitted st ++ [(FromReset, resetFilters)]).

Definition handleChange (field : string) (v : prim) (st : form) : form :=
  Form (<[field := v]> (filters st)) (searchHook st) (effectDeps st)
       (submitted st).

Definition handleSearchChange (v : prim) (st : form) : form :=
  Form (<["search" := v]> (filters st)) (searchHook st) (effectDeps st)
       (submitted st).

(** The timer of the search hook is given [dt] milliseconds. *)
Definition tick (dt : nat) (st : form) : form :=
  Form (filters st) (Debounce.elapse dt (searchHook st)) (effectDeps st)
       (submitted st).

(** The five controls wired to [handleChange]. *)
Inductive control : Type :=
| Status
| Department
| Priority
| DateFrom
| DateTo.

Definition controlField (c : control) : string :=
  match c with
  | Status => "status"
  | Department => "department"
  | Priority => "priority"
  | DateFrom => "dateFrom"
  | DateTo => "dateTo"
  end.

(** User and timer events; an input element always reports a string. *)
Inductive event : Type :=
| Change (c : control) (v : string)
| Search (v : string)
| SubmitClick
| ResetClick
| Wait (dt : nat).

Definition step (initialFilters : gmap string prim) (st : form) (e : event)
  : form :=
  match e with
  | Change c v => render initialFilters (handleChange (controlField c) (PStr v) st)
  | Search v => render initialFilters (handleSearchChange (PStr v) st)
  | SubmitClick => render initialFilters (handleSubmit st)
  | ResetClick => render initialFilters (handleReset st)
  | Wait dt => render initialFilters (tick dt st)
  end.

Definition run (initialFilters : gmap string prim) (now : nat)
    (evs : list event) : form :=
  fold_left (step initialFilters) evs (mount initialFilters now).

(** The baseline of the specification: [initialFilters[field] ?? ''] *)
Definition baseline (initialFilters : gmap string prim) (field : string)
  : prim :=
  coalesce (get initialFilters field) (PStr "").

(** Every value the caller supplies is a string. *)
Definition stringValued (o : gmap string prim) : Prop :=
  ∀ k v, o !! k = Some v → ∃ s, v = PStr s.

(** [initialFilters] is a partial FilterState: some of the six fields,
    each a string. *)
Definition partialFilterState (o : gmap string prim) : Prop :=
  ∀ k v, o !! k = Some v → k ∈ fieldNames ∧ ∃ s, v = PStr s.

(** The state object holds the six fields and nothing else. *)
Definition sixFields (f : gmap string prim) : Prop :=
  dom f = list_to_set fieldNames.

(** Some field of the emitted object is off the baseline. *)
Definition differs (initialFilters o : gmap string prim) : Prop :=
  ∃ field, field ∈ fieldNames ∧ get o field ≠ baseline initialFilters field.

(** What holds of every state the form reaches. *)
Definition reachable_ok (initialFilters : gmap string prim) (st : form)
  : Prop :=
  sixFields (filters st) ∧
  ∀ o, (FromEffect, o) ∈ submitted st → differs initialFilters o.

(** The condition under which the label shows that a search is pending. *)
Definition searching (st : form) : bool :=
  negb (strict_eq (debouncedSearch st) (get (filters st) "search")).

(** The state after a commit: the effect has seen the current
    dependencies, and the debounce hook has seen the current search. *)
Definition committed (st : form) : Prop :=
  effectDeps st = depsOf (filters st) (debouncedSearch st) ∧
  Debounce.settled_or_pending 300 (searchHook st) ∧
  Debounce.input (searchHook st) = get (filters st) "search".

Definition isString (p : prim) : Prop := ∃ s, p = PStr s.

(** A complete FilterState: the six fields, each a string. *)
Definition filterState (o : gmap string prim) : Prop :=
  sixFields o ∧ stringValued o.

(** Every value the form holds is a string, and so was every object it
    emitted. *)
Definition wellTyped (st : form) : Prop :=
  filterState (filters st) ∧
  isString (debouncedSearch st) ∧
  (∀ due v, Debounce.timer (searchHook st) = Some (due, v) → isString v) ∧
  ∀ x o, (x, o) ∈ submitted st → filterState o.

End FiltersForm.

(** ** Notions used to state the properties *)

Module Props.
Import JS.

(** The text contains a comma, a double quote or a line feed. *)
Definition hasDelimiter (s : string) : bool :=
  includes comma s || includes dquote s || includes newline s.

Fixpoint countChar (c : ascii) (s : string) : nat :=
  match s with
  | EmptyString => 0%nat
  | String a s' => ((if Ascii.eqb a c then 1 else 0) + countChar c s')%nat
  end.

(** Every double quote of the text is one half of an adjacent pair. *)
Fixpoint quotesPaired (s : string) : bool :=
  match s with
  | EmptyString => true
  | String a s' =>
      if Ascii.eqb a dquote
      then match s' with
           | String b s'' => Ascii.eqb b dquote && quotesPaired s''
           | EmptyString => false
           end
      else quotesPaired s'
  end.

(** Reading a quoted field back: each pair of double quotes is one. *)
Fixpoint unescape (s : string) : string :=
  match s with
  | EmptyString => ""
  | String a s' =>
      if Ascii.eqb a dquote
      then match s' with
           | String _ s'' => String dquote (unescape s'')
           | EmptyString => String a ""
           end
      else String a (unescape s')
  end.

(** A text between two double quotes. *)
Definition quoted (body : string) : string :=
  String dquote (body +:+ String dquote "").

Definition lineFeed : string := String newline "".

(** The header line of the reports export. *)
Definition reportsHeaderLine : string :=
  "ID,Title,Status,Department,Priority,Author,Created Date,Updated Date,Record Count,File Size,Execution Time".

(** The screen state once the click handler has set the loading flag and
    cleared the message. *)
Definition started (w : world) : world :=
  World true "" (downloadCalls w) (clearTimers w).

(** Reading CSV text back, the way a consumer of the file does: a comma
    ends a field and a line feed ends a record unless inside double
    quotes; inside quotes a pair of double quotes is one double quote and a
    single one closes the quoted part. [field] and [record] hold what has
    been read of the current field and record. *)
Fixpoint parseCSV (s : string) (inQuotes : bool) (field : string)
    (record : list string) : list (list string) :=
  match s with
  | EmptyString => [(record ++ [field])%list]
  | String c s' =>
      if inQuotes then
        if Ascii.eqb c dquote then
          match s' with
          | String c' s'' =>
              if Ascii.eqb c' dquote
              then parseCSV s'' true (field +:+ String dquote "") record
              else parseCSV s' false field record
          | EmptyString => parseCSV s' false field record
          end
        else parseCSV s' true (field +:+ String c "") record
      else if Ascii.eqb c comma then
        parseCSV s' false "" (record ++ [field])%list
      else if Ascii.eqb c newline then
        (record ++ [field])%list :: parseCSV s' false "" []
      else if Ascii.eqb c dquote then parseCSV s' true field record
      else parseCSV s' false (field +:+ String c "") record
  end.

Definition readCSV (s : string) : list (list string) := parseCSV s false "" [].

(** The text does not go on with a double quote. *)
Definition notQuoteNext (r : string) : Prop :=
  match r with
  | EmptyString => True
  | String c _ => Ascii.eqb c dquote = false
  end.

(** The text a cell stands for, before escaping; an invalid Date has
    none. *)
Definition cellText (h : Host) (v : value) : string :=
  match v with
  | VDate t => before "T" (toISOString h t)
  | VInvalidDate => ""
  | VBuiltin name => builtinText h name
  | VPrim (PStr s) =>
      if Csv.matchPrefix Csv.isoTimestampPattern s
      then toLocaleDateString h (PStr s)
      else s
  | VPrim p => if nullish p then "" else toString p
  end.

(** None of the cells the headers read off the row is an invalid Date. *)
Definition validCells (csvHeaders : list string) (row : obj) : Prop :=
  Forall (λ header, prop row header ≠ VInvalidDate) csvHeaders.

(** One line of the document: the escaped texts of the cells, joined by
    commas. *)
Definition csvLine (h : Host) (csvHeaders : list string) (row : obj) : string :=
  join "," (map (λ header, Csv.escapeCSVValue (PStr (cellText h (prop row header))))
                csvHeaders).

(** Milliseconds that pass during a list of debounce events. *)
Definition total {V : Type} (evs : list (Debounce.event V)) : nat :=
  foldr (λ e n, (Debounce.elapsed e + n)%nat) 0%nat evs.

End Props.

(** ** Sample inputs *)

Module Samples.
Import JS Csv.

(** How V8 prints what [Object.prototype] holds: its functions, the
    [Object] constructor and the prototype itself. *)
Definition nativeText (name : string) : string :=
  if String.eqb name "__proto__" then "[object Object]"
  else if String.eqb name "constructor"
       then "function Object() { [native code] }"
       else "function " +:+ name +:+ "() { [native code] }".

Definition host : Host :=
  {| toLocaleDateString := λ _, "1/2/2024";
     toISOString := λ _, "2024-01-02T03:04:05.000Z";
     invalidTimeMessage := "Invalid time value";
     builtinText := nativeText;
     nowISOString := "2024-01-02T03:04:05.000Z";
     deliver := λ _ _ _, None |}.

(** A host whose Blob constructor raises. *)
Definition brokenHost : Host :=
  {| toLocaleDateString := λ _, "1/2/2024";
     toISOString := λ _, "2024-01-02T03:04:05.000Z";
     invalidTimeMessage := "Invalid time value";
     builtinText := nativeText;
     nowISOString := "2024-01-02T03:04:05.000Z";
     deliver := λ _ _ _, Some "Blob is not defined" |}.

Definition idle : world := World false "" [] [].

Definition draft : report :=
  Report (PNum 1) (PStr "A,B") (PStr "draft") (PStr "Sales") (PStr "low")
         (PStr "Ann") (PStr "2024-01-02T03:04:05.000Z") PUndefined
         (PNum 0) (PNum 12) PUndefined.

Definition ab : obj := [("a", VPrim (PNum 1)); ("b", VPrim (PNum 2))].

(** The form is mounted with the status filter already on draft. *)
Definition draftOnly : gmap string prim := {[ "status" := PStr "draft" ]}.

(** A row with an invalid Date, as [new Date(NaN)] is. *)
Definition undated : obj := [("when", VInvalidDate); ("what", VPrim (PStr "x"))].

(** A row created with a named key first and an array index second. *)
Definition indexed : obj := [("b", VPrim (PNum 1)); ("1", VPrim (PNum 2))].


(** A row whose values hold every delimiter. *)
Definition tricky : obj :=
  [ ("name", VPrim (PStr "Doe, Jane"));
    ("note", VPrim (PStr ("said " +:+ String dquote ("hi" +:+ String dquote
                           (String newline "twice")))));
    ("n", VPrim (PNum 7)) ].

(** The same properties in another key order, with one more. *)
Definition trickyShuffled : obj :=
  [ ("n", VPrim (PNum 7));
    ("extra", VPrim (PBool true));
    ("note", VPrim (PStr ("said " +:+ String dquote ("hi" +:+ String dquote
                           (String newline "twice")))));
    ("name", VPrim (PStr "Doe, Jane")) ].

(** A report whose title has a comma, a double quote and a line feed. *)
Definition awkward : report :=
  Report (PNum 2)
         (PStr ("Q1, " +:+ String dquote ("final" +:+ String dquote
                  (String newline "draft"))))
         (PStr "draft") PUndefined PNull (PStr "Bob") PUndefined PUndefined
         (PNum 5) PUndefined (PStr "1.5s").

(** An initialFilters outside the data model: a number where a string
    belongs. *)
Definition zeroStatus : gmap string prim := {[ "status" := PNum 0 ]}.

End Samples.

(** * Properties *)

Import JS Csv App Props.

(** ** The definitions on small inputs *)

Example escapeCSVValue_samples :
  escapeCSVValue PNull = "" ∧
  escapeCSVValue (PNum 0) = "0" ∧
  escapeCSVValue (PBool false) = "false" ∧
  escapeCSVValue (PStr "plain") = "plain" ∧
  escapeCSVValue (PStr "A,B") = quoted "A,B" ∧
  escapeCSVValue (PStr (String dquote "x")) = quoted (String dquote (String dquote "x")).
Proof. repeat split. Qed.

Example convertToCSV_sample_report :
  convertToCSV Samples.host
    (Some (formatReportsForCSV Samples.host (Some [Samples.draft])))
    (Some REPORTS_CSV_HEADERS)
  = Returned (reportsHeaderLine +:+ lineFeed
              +:+ "1," +:+ quoted "A,B" +:+ ",draft,Sales,low,Ann,1/2/2024,,,12,").
Proof. reflexivity. Qed.

Example convertToCSV_sample_invalid_date :
  convertToCSV Samples.host (Some [Samples.undated]) None
  = Thrown (Error "Invalid time value") ∧
  exportAsCSV Samples.host (Some [Samples.undated]) "export" None Samples.idle
  = (Thrown (Error "CSV export failed: Invalid time value"), Samples.idle).
Proof. split; reflexivity. Qed.

Example keys_sample_order :
  keys Samples.indexed = ["1"; "b"] ∧
  keys [("10", VPrim PNull); ("b", VPrim PNull); ("9", VPrim PNull);
        ("01", VPrim PNull)]
  = ["9"; "10"; "b"; "01"] ∧
  prop Samples.ab "toString" = VBuiltin "toString" ∧
  prop Samples.ab "c" = VPrim PUndefined.
Proof. repeat split. Qed.

Example handleExportCSV_sample_success :
  handleExportCSV Samples.host (Some [Samples.draft]) Samples.idle
  = (Returned (),
     World false
       "Successfully exported 1 reports to reports-export-2024-01-02.csv"
       [(reportsHeaderLine +:+ lineFeed
         +:+ "1," +:+ quoted "A,B" +:+ ",draft,Sales,low,Ann,1/2/2024,,,12,",
         "reports-export-2024-01-02.csv", "text/csv")]
       [5000%nat]).
Proof. reflexivity. Qed.

Example debounce_sample_typing :
  map Debounce.debouncedValue
    (Debounce.trace 300 (Debounce.mount 0 "" 300)
       [Debounce.Input "a"; Debounce.Elapse 100; Debounce.Input "ab";
        Debounce.Elapse 299; Debounce.Elapse 1])
  = [""; ""; ""; ""; "ab"].
Proof. reflexivity. Qed.

(** ** Text lemmas *)

Lemma includes_app_char c a b : includes c (a +:+ String c b) = true.
Proof.
  induction a as [|x a IH]; simpl.
  - by rewrite Ascii.eqb_refl.
  - by destruct (Ascii.eqb x c).
Qed.

Lemma includes_nonempty c s : includes c s = true → s ≠ "".
Proof. by destruct s. Qed.

Lemma join_cons sep p q rest :
  join sep (p :: q :: rest) = p +:+ sep +:+ join sep (q :: rest).
Proof. reflexivity. Qed.

Lemma hasDelimiter_empty : hasDelimiter "" = false.
Proof. reflexivity. Qed.

Lemma quotesPaired_doubleQuotes s : quotesPaired (doubleQuotes s) = true.
Proof.
  induction s as [|a s IH]; simpl; [done|].
  destruct (Ascii.eqb a dquote) eqn:E; simpl.
  - exact IH.
  - by rewrite E.
Qed.

Lemma unescape_doubleQuotes s : unescape (doubleQuotes s) = s.
Proof.
  induction s as [|a s IH]; simpl; [done|].
  destruct (Ascii.eqb a dquote) eqn:E; simpl.
  - apply Ascii.eqb_eq in E. by rewrite IH, E.
  - by rewrite E, IH.
Qed.

Lemma countChar_doubleQuotes s :
  countChar dquote (doubleQuotes s) = (2 * countChar dquote s)%nat.
Proof.
  induction s as [|a s IH]; simpl; [done|].
  destruct (Ascii.eqb a dquote) eqn:E; simpl.
  - rewrite IH. lia.
  - rewrite E, IH. lia.
Qed.

(** ** escapeCSVValue *)

Lemma escapeCSVValue_plain v :
  hasDelimiter (toString v) = false →
  escapeCSVValue v = if nullish v then "" else toString v.
Proof.
  unfold escapeCSVValue, hasDelimiter. intros ->. reflexivity.
Qed.

Lemma escapeCSVValue_quoted s :
  hasDelimiter s = true →
  escapeCSVValue (PStr s) = quoted (doubleQuotes s).
Proof.
  unfold escapeCSVValue, hasDelimiter. simpl. intros ->. reflexivity.
Qed.

(** C7. On a value whose string form has no comma, double quote or line
    feed, escapeCSVValue returns that string form unchanged (the empty
    string for null and undefined), so escaping the result again changes
    nothing. On a string that has one of the three, the result is the text
    with every double quote doubled, put between two double quotes: inside
    the outer pair every double quote belongs to an adjacent pair, there
    are twice as many as in the input, and reading the pairs back as single
    quotes returns the input. *)
Theorem escapeCSVValue_idempotent_or_quoted :
  (∀ v : prim,
     hasDelimiter (toString v) = false →
     escapeCSVValue (PStr (escapeCSVValue v)) = escapeCSVValue v ∧
     (nullish v = false → escapeCSVValue v = toString v)) ∧
  (∀ s : string,
     hasDelimiter s = true →
     escapeCSVValue (PStr s) = quoted (doubleQuotes s) ∧
     quotesPaired (doubleQuotes s) = true ∧
     countChar dquote (doubleQuotes s) = (2 * countChar dquote s)%nat ∧
     unescape (doubleQuotes s) = s).
Proof.
  split.
  - intros v Hv. rewrite (escapeCSVValue_plain v Hv). split.
    + destruct (nullish v).
      * reflexivity.
      * by apply escapeCSVValue_plain.
    + by intros ->.
  - intros s Hs. split; [by apply escapeCSVValue_quoted|].
    split; [apply quotesPaired_doubleQuotes|].
    split; [apply countChar_doubleQuotes|apply unescape_doubleQuotes].
Qed.

Lemma escapeCSVValue_idempotent_or_quoted_witness :
  escapeCSVValue (PStr (escapeCSVValue (PNum 42))) = escapeCSVValue (PNum 42) ∧
  escapeCSVValue (PStr (String "a" (String dquote "b")))
  = quoted (String "a" (String dquote (String dquote "b"))).
Proof.
  destruct escapeCSVValue_idempotent_or_quoted as [plain quoting]. split.
  - exact (proj1 (plain (PNum 42) eq_refl)).
  - exact (proj1 (quoting (String "a" (String dquote "b")) eq_refl)).
Defined.

(** ** Results of a map that can raise *)


Lemma collect_all {A B} (f : A → outcome B) (g : A → B) (l : list A) :
  (∀ a, a ∈ l → f a = Returned (g a)) →
  collect (map f l) = Returned (map g l).
Proof.
  induction l as [|a l IH]; intros Hall; [done|].
  rewrite !map_cons. cbn [collect].
  rewrite (Hall a) by apply list_elem_of_here.
  rewrite IH; [done|]. intros a' Ha'. by apply Hall, list_elem_of_further.
Qed.

(** When every call returns or raises the one error [e], and one raises
    it, the map raises it. *)
Lemma collect_some {A B} (f : A → outcome B) (e : error) (l : list A) :
  (∀ a, a ∈ l → f a = Thrown e ∨ ∃ b, f a = Returned b) →
  (∃ a, a ∈ l ∧ f a = Thrown e) →
  collect (map f l) = Thrown e.
Proof.
  induction l as [|a l IH]; intros Hall (a' & Hin & Ha').
  { by apply elem_of_nil in Hin. }
  rewrite map_cons. cbn [collect].
  destruct (Hall a (list_elem_of_here _ _)) as [->|[b Hb]]; [done|].
  rewrite Hb. cbn [andThen]. rewrite IH; [done| |].
  - intros x Hx. by apply Hall, list_elem_of_further.
  - apply elem_of_cons in Hin as [->|Hin]; [|by exists a'].
    congruence.
Qed.

(** ** convertToCSV *)

Lemma map_lookup {A B} (f : A → B) (l : list A) (i : nat) :
  map f l !! i = f <$> (l !! i).
Proof.
  revert i. induction l as [|a l IH]; intros [|i]; by simpl.
Qed.

Lemma ownProp_None (row : obj) (header : string) :
  ownProp row header = None ↔ header ∉ row.*1.
Proof.
  induction row as [|[k v] row IH]; simpl.
  { split; [intros _; apply not_elem_of_nil|done]. }
  destruct (String.eqb k header) eqn:E.
  - apply String.eqb_eq in E. subst k. split; [done|].
    intros Hnot. destruct Hnot. apply list_elem_of_here.
  - apply String.eqb_neq in E. rewrite IH, not_elem_of_cons.
    split; [by split; [congruence|]|by intros [_ ?]].
Qed.

(** A header that names nothing, on the row or on the prototype, reads
    [undefined]. *)
Lemma prop_missing (row : obj) (header : string) :
  ownProp row header = None → inherited header = false →
  prop row header = VPrim PUndefined.
Proof. unfold prop. by intros -> ->. Qed.

(** Without array indices among them the keys come in creation order. *)
Lemma keys_creation_order (o : obj) :
  Forall (λ kv, arrayIndex kv.1 = None) o → keys o = o.*1.
Proof.
  intros Hnamed. unfold keys.
  assert (Hindex : indexKeys o = [] ∧ namedKeys o = o.*1).
  { induction Hnamed as [|[k v] o Hk _ [IHi IHn]]; [done|].
    simpl in *. rewrite Hk. split; [done|]. by f_equal. }
  by destruct Hindex as [-> ->].
Qed.

Lemma cell_escapes_cellText h v :
  v ≠ VInvalidDate →
  cell h v = Returned (escapeCSVValue (PStr (cellText h v))).
Proof.
  intros Hv. destruct v as [[| |[]|n|s]|t| |name]; try reflexivity; [|done].
  unfold cell, cellText. by destruct (matchPrefix isoTimestampPattern s).
Qed.

Lemma cell_invalid h : cell h VInvalidDate = Thrown (Error (invalidTimeMessage h)).
Proof. reflexivity. Qed.

Lemma cell_cases h v :
  cell h v = Thrown (Error (invalidTimeMessage h))
  ∨ ∃ c, cell h v = Returned c.
Proof.
  destruct (decide (v = VInvalidDate)) as [->|Hv]; [by left|].
  right. eexists. by apply cell_escapes_cellText.
Qed.

Lemma rowCells_valid h (csvHeaders : list string) (row : obj) :
  validCells csvHeaders row →
  rowCells h csvHeaders row
  = Returned (map (λ header, escapeCSVValue (PStr (cellText h (prop row header))))
                  csvHeaders).
Proof.
  intros Hvalid. unfold rowCells.
  apply (collect_all (λ header, cell h (prop row header))).
  intros header Hin. apply cell_escapes_cellText.
  by apply (proj1 (Forall_forall _ _) Hvalid).
Qed.

Lemma rowCells_invalid h (csvHeaders : list string) (row : obj) :
  ¬ validCells csvHeaders row →
  rowCells h csvHeaders row = Thrown (Error (invalidTimeMessage h)).
Proof.
  intros Hinvalid. unfold rowCells.
  apply (collect_some (λ header, cell h (prop row header))).
  - intros header _. apply cell_cases.
  - apply not_Forall_Exists in Hinvalid; [|apply _].
    apply Exists_exists in Hinvalid as (header & Hin & Hbad).
    exists header. split; [done|].
    simpl in Hbad. apply dec_stable in Hbad. by rewrite Hbad.
Qed.

(** The line of one row, or the error of its first invalid Date. *)
Definition rowLine (h : Host) (csvHeaders : list string) (row : obj)
  : outcome string :=
  andThen (rowCells h csvHeaders row) (λ cells, Returned (join "," cells)).

Lemma rowLine_valid h (csvHeaders : list string) (row : obj) :
  validCells csvHeaders row →
  rowLine h csvHeaders row = Returned (csvLine h csvHeaders row).
Proof. intros Hvalid. unfold rowLine. by rewrite rowCells_valid. Qed.

Lemma rowLine_invalid h (csvHeaders : list string) (row : obj) :
  ¬ validCells csvHeaders row →
  rowLine h csvHeaders row = Thrown (Error (invalidTimeMessage h)).
Proof. intros Hinvalid. unfold rowLine. by rewrite rowCells_invalid. Qed.

Lemma convertToCSV_nonempty h first rest headers :
  convertToCSV h (Some (first :: rest)) headers
  = andThen (collect (map (rowLine h (default (keys first) headers))
                          (first :: rest)))
            (λ dataRows,
               Returned (join lineFeed
                 (join "," (map (λ header, escapeCSVValue (PStr header))
                                (default (keys first) headers))
                  :: dataRows))).
Proof. reflexivity. Qed.

(** When no cell read is an invalid Date, the text is the header line and
    the lines of the rows. *)
Lemma convertToCSV_valid h first rest headers :
  Forall (validCells (default (keys first) headers)) (first :: rest) →
  convertToCSV h (Some (first :: rest)) headers
  = Returned (join lineFeed
      (join "," (map (λ header, escapeCSVValue (PStr header))
                     (default (keys first) headers))
       :: map (csvLine h (default (keys first) headers)) (first :: rest))).
Proof.
  intros Hvalid. rewrite convertToCSV_nonempty.
  rewrite (collect_all _ (csvLine h (default (keys first) headers))); [done|].
  intros row Hin. apply rowLine_valid.
  by apply (proj1 (Forall_forall _ _) Hvalid).
Qed.

(** When one is, the conversion raises the error of [toISOString]. *)
Lemma convertToCSV_invalid h first rest headers :
  ¬ Forall (validCells (default (keys first) headers)) (first :: rest) →
  convertToCSV h (Some (first :: rest)) headers
  = Thrown (Error (invalidTimeMessage h)).
Proof.
  intros Hinvalid. rewrite convertToCSV_nonempty.
  rewrite (collect_some _ (Error (invalidTimeMessage h))); [done| |].
  - intros row _.
    destruct (decide (validCells (default (keys first) headers) row)).
    + right. eexists. by apply rowLine_valid.
    + left. by apply rowLine_invalid.
  - apply not_Forall_Exists in Hinvalid; [|apply _].
    apply Exists_exists in Hinvalid as (row & Hin & Hbad).
    exists row. split; [done|]. by apply rowLine_invalid.
Qed.

Lemma join_has_line_feed (line next : string) (lines : list string) :
  includes newline (join lineFeed (line :: next :: lines)) = true.
Proof. rewrite join_cons. unfold lineFeed. apply (includes_app_char newline _ _). Qed.

(** C6. convertToCSV of an absent or empty row list returns the empty
    string. For a non-empty list the headers are the ones supplied, or
    else the keys of the first row, which come in creation order when none
    of them is an array index. If a cell read off some row is an invalid
    Date the conversion raises; otherwise it returns the header line
    followed by one line per row, joined by line feeds: the header line is
    the escaped headers joined by commas, line i holds the cells of row i
    in header order, and the cell of a header that names no property of
    the row and none of Object.prototype is the empty string. For the
    single row with a = 1 and b = 2 and no headers the text is a,b then a
    line feed then 1,2. *)
Theorem convertToCSV_layout (h : Host) :
  (∀ headers,
     convertToCSV h None headers = Returned "" ∧
     convertToCSV h (Some []) headers = Returned "") ∧
  (∀ first rest headers,
     let rows := first :: rest in
     let csvHeaders := default (keys first) headers in
     (Forall (λ kv, arrayIndex kv.1 = None) first → keys first = first.*1) ∧
     (¬ Forall (validCells csvHeaders) rows →
      convertToCSV h (Some rows) headers
      = Thrown (Error (invalidTimeMessage h))) ∧
     (Forall (validCells csvHeaders) rows →
      ∃ rowLines,
        convertToCSV h (Some rows) headers
        = Returned (join lineFeed
            (join "," (map (λ header, escapeCSVValue (PStr header)) csvHeaders)
             :: rowLines)) ∧
        List.length rowLines = List.length rows ∧
        ∀ i row, rows !! i = Some row →
          ∃ cells,
            rowCells h csvHeaders row = Returned cells ∧
            rowLines !! i = Some (join "," cells) ∧
            List.length cells = List.length csvHeaders ∧
            ∀ j header, csvHeaders !! j = Some header →
              ∃ c, cells !! j = Some c ∧
                   cell h (prop row header) = Returned c ∧
                   (ownProp row header = None → inherited header = false →
                    c = ""))) ∧
  convertToCSV h (Some [Samples.ab]) None
  = Returned ("a,b" +:+ lineFeed +:+ "1,2").
Proof.
  split; [done|]. split; [|reflexivity].
  intros first rest headers rows csvHeaders.
  split; [apply keys_creation_order|].
  split; [apply convertToCSV_invalid|].
  intros Hvalid. exists (map (csvLine h csvHeaders) rows).
  split; [by apply convertToCSV_valid|].
  split; [apply length_map|].
  intros i row Hrow.
  assert (Hrowvalid : validCells csvHeaders row).
  { apply (proj1 (Forall_forall _ _) Hvalid). by eapply list_elem_of_lookup_2. }
  eexists. split; [by apply rowCells_valid|].
  split; [by rewrite map_lookup, Hrow|].
  split; [apply length_map|].
  intros j header Hheader. eexists. rewrite map_lookup, Hheader.
  split; [reflexivity|].
  assert (Hcell : prop row header ≠ VInvalidDate).
  { apply (proj1 (Forall_forall _ _) Hrowvalid). by eapply list_elem_of_lookup_2. }
  split; [by rewrite cell_escapes_cellText|].
  intros Hown Hproto. by rewrite prop_missing.
Qed.

Lemma convertToCSV_layout_witness :
  convertToCSV Samples.host (Some []) None = Returned "" ∧
  ∃ cells,
    rowCells Samples.host ["b"; "c"] Samples.ab = Returned cells ∧
    cell Samples.host (prop Samples.ab "c") = Returned "" ∧
    cells !! 1%nat = Some "".
Proof.
  destruct (convertToCSV_layout Samples.host) as (empty & layout & _).
  split; [exact (proj2 (empty None))|].
  destruct (layout Samples.ab [] (Some ["b"; "c"])) as (_ & _ & Hlayout).
  destruct Hlayout as (rowLines & _ & _ & Hrows).
  { repeat constructor; discriminate. }
  destruct (Hrows 0%nat Samples.ab eq_refl) as (cells & Hcells & _ & _ & Hcell).
  destruct (Hcell 1%nat "c" eq_refl) as (c & Hc & Hreturned & Hempty).
  specialize (Hempty eq_refl eq_refl). subst c.
  exists cells. by repeat split.
Defined.

(** Where C6 as it was stated fails: a header that names a property of
    Object.prototype gives a cell that is not empty although the row has
    no such key; the keys of a row created with b before 1 come as 1, b;
    and on a row with an invalid Date nothing is returned. *)
Lemma convertToCSV_layout_counterexample :
  ownProp Samples.ab "toString" = None ∧
  convertToCSV Samples.host (Some [Samples.ab]) (Some ["a"; "toString"])
  = Returned ("a,toString" +:+ lineFeed
              +:+ "1,function toString() { [native code] }") ∧
  Samples.indexed.*1 = ["b"; "1"] ∧
  convertToCSV Samples.host (Some [Samples.indexed]) None
  = Returned ("1,b" +:+ lineFeed +:+ "2,1") ∧
  convertToCSV Samples.host (Some [Samples.undated]) None
  = Thrown (Error "Invalid time value").
Proof. repeat split. Qed.

(** exportAsCSV on a non-empty list: the error of the conversion, wrapped,
    with no entry into downloadFile; or one entry into downloadFile with
    the text, then the success record or the download failure. The guard
    against an empty text never fires. *)
Lemma exportAsCSV_nonempty h first rest baseFilename headers w :
  exportAsCSV h (Some (first :: rest)) baseFilename headers w
  = match convertToCSV h (Some (first :: rest)) headers with
    | Thrown e => (Thrown (Error ("CSV export failed: " +:+ message e)), w)
    | Returned csvContent =>
        let filename := baseFilename +:+ "-" +:+ before "T" (nowISOString h)
                        +:+ ".csv" in
        let w' := World (exportLoading w) (exportMessage w)
                        (downloadCalls w ++ [(csvContent, filename, "text/csv")])
                        (clearTimers w) in
        match deliver h csvContent filename "text/csv" with
        | None => (Returned (ExportResult true filename), w')
        | Some _ =>
            (Thrown (Error "CSV export failed: Failed to download file"), w')
        end
    end.
Proof.
  destruct (decide (Forall (validCells (default (keys first) headers))
                           (first :: rest))) as [Hvalid|Hinvalid].
  - unfold exportAsCSV, try_catch, mbind, M_bind, bind, pure.
    rewrite convertToCSV_valid by done.
    set (csvContent := join lineFeed _).
    assert (Hne : String.eqb csvContent "" = false).
    { apply String.eqb_neq, (includes_nonempty newline).
      unfold csvContent. rewrite map_cons. apply join_has_line_feed. }
    rewrite Hne. cbv zeta.
    unfold downloadFile, mbind, M_bind, bind, try_catch, enterDownload.
    by destruct (deliver h csvContent _ "text/csv").
  - unfold exportAsCSV, try_catch, mbind, M_bind, bind, pure.
    by rewrite convertToCSV_invalid.
Qed.




(** ** formatReportsForCSV *)

(** What the three metric columns do hold: the empty string for an absent
    or otherwise falsy source field, the source value for a truthy one, and
    in no case null or undefined. *)
Lemma formatReport_metric_columns (h : Host) (r : report) :
  let metric (column : string) (source : prim) :=
    prop (formatReport h r) column
    = VPrim (if truthy source then source else PStr "") ∧
    prop (formatReport h r) column ≠ VPrim PUndefined ∧
    prop (formatReport h r) column ≠ VPrim PNull in
  metric "Record Count" (recordCount r) ∧
  metric "File Size" (fileSize r) ∧
  metric "Execution Time" (executionTime r).
Proof.
  unfold prop. simpl. unfold or.
  destruct (recordCount r) as [| |[]| |], (fileSize r) as [| |[]| |],
    (executionTime r) as [| |[]| |]; simpl;
    repeat match goal with |- context [Z.eqb ?n 0] => destruct (Z.eqb n 0) end;
    repeat match goal with |- context [String.eqb ?s ""] => destruct (String.eqb s "") end;
    simpl; repeat split; congruence.
Qed.

(** A row whose own values are no invalid Dates has none among its
    cells. *)
Lemma prop_valid (row : obj) (header : string) :
  Forall (λ kv, kv.2 ≠ VInvalidDate) row → prop row header ≠ VInvalidDate.
Proof.
  intros Hrow. unfold prop.
  destruct (ownProp row header) as [v|] eqn:E; [|by destruct (inherited header)].
  induction Hrow as [|[k v'] row Hv _ IH]; [done|].
  simpl in E. destruct (String.eqb k header); [|by apply IH].
  by injection E as <-.
Qed.

Lemma formatReport_valid h r (csvHeaders : list string) :
  validCells csvHeaders (formatReport h r).
Proof.
  apply Forall_forall. intros header _. apply prop_valid.
  unfold formatReport. repeat constructor; discriminate.
Qed.

Lemma formatReports_valid h (rs : list report) (csvHeaders : list string) :
  Forall (validCells csvHeaders) (map (formatReport h) rs).
Proof.
  apply Forall_forall. intros row Hin.
  apply list_elem_of_In, in_map_iff in Hin as (r & <- & _).
  apply formatReport_valid.
Qed.

(** C1, at the input where the code departs from it: a record whose
    record count, file size or execution time is the number 0 gets the
    empty string in that column, where escapeCSVValue alone would print 0;
    the exported cell is empty. *)
Theorem formatReportsForCSV_zero_metric_is_blank
    (h : Host) (id title status department priority author createdAt updatedAt : prim) :
  let r := Report id title status department priority author createdAt
                  updatedAt (PNum 0) (PNum 0) (PNum 0) in
  let rows := formatReportsForCSV h (Some [r]) in
  rows = [formatReport h r] ∧
  prop (formatReport h r) "Record Count" = VPrim (PStr "") ∧
  prop (formatReport h r) "File Size" = VPrim (PStr "") ∧
  prop (formatReport h r) "Execution Time" = VPrim (PStr "") ∧
  (∃ cells, rowCells h REPORTS_CSV_HEADERS (formatReport h r) = Returned cells ∧
            drop 8 cells = [""; ""; ""]) ∧
  escapeCSVValue (PNum 0) = "0".
Proof.
  intros r rows. repeat split.
  eexists. split; [apply rowCells_valid, formatReport_valid|reflexivity].
Qed.

(** C8. For a report whose title is the text A,B, formatReportsForCSV
    followed by convertToCSV with REPORTS_CSV_HEADERS yields the header
    line, a line feed, and a row whose second cell, the one under Title,
    is A,B between double quotes. *)
Theorem title_with_comma_is_quoted (h : Host) (r : report) :
  title r = PStr "A,B" →
  REPORTS_CSV_HEADERS !! 1%nat = Some "Title" ∧
  (∃ cells, rowCells h REPORTS_CSV_HEADERS (formatReport h r) = Returned cells ∧
            cells !! 1%nat = Some (quoted "A,B")) ∧
  ∃ idCell rest,
    cell h (VPrim (id r)) = Returned idCell ∧
    convertToCSV h (Some (formatReportsForCSV h (Some [r])))
                 (Some REPORTS_CSV_HEADERS)
    = Returned (reportsHeaderLine +:+ lineFeed
                +:+ idCell +:+ "," +:+ quoted "A,B" +:+ "," +:+ rest).
Proof.
  intros Htitle. split; [reflexivity|]. split.
  - eexists. split; [apply rowCells_valid, formatReport_valid|].
    unfold REPORTS_CSV_HEADERS. rewrite !map_cons. cbn [lookup list_lookup].
    change (prop (formatReport h r) "Title") with (VPrim (title r)).
    by rewrite Htitle.
  - eexists _, _. split; [by apply cell_escapes_cellText|].
    change (formatReportsForCSV h (Some [r])) with [formatReport h r].
    rewrite convertToCSV_valid by apply (formatReports_valid h [r]).
    f_equal.
    change (join "," (map _ (default _ (Some REPORTS_CSV_HEADERS))))
      with reportsHeaderLine.
    change (map ?f [?row]) with [f row]. rewrite join_cons.
    change (join lineFeed [?l]) with l.
    change (default _ (Some REPORTS_CSV_HEADERS)) with REPORTS_CSV_HEADERS.
    unfold csvLine, REPORTS_CSV_HEADERS. rewrite !map_cons, !join_cons.
    change (prop (formatReport h r) "ID") with (VPrim (id r)).
    change (prop (formatReport h r) "Title") with (VPrim (title r)).
    rewrite Htitle.
    change (escapeCSVValue (PStr (cellText h (VPrim (PStr "A,B")))))
      with (quoted "A,B").
    reflexivity.
Qed.

Lemma title_with_comma_is_quoted_witness :
  ∃ cells,
    rowCells Samples.host REPORTS_CSV_HEADERS
             (formatReport Samples.host Samples.draft) = Returned cells ∧
    cells !! 1%nat = Some (quoted "A,B").
Proof.
  exact (proj1 (proj2 (title_with_comma_is_quoted Samples.host Samples.draft eq_refl))).
Defined.

(** ** The export chain *)

Lemma formatReportsForCSV_cons h r rs :
  formatReportsForCSV h (Some (r :: rs)) = formatReport h r :: map (formatReport h) rs.
Proof. reflexivity. Qed.

(** The text of the reports export: formatted rows always convert. *)
Lemma convertToCSV_reports h r rs :
  convertToCSV h (Some (formatReportsForCSV h (Some (r :: rs))))
               (Some REPORTS_CSV_HEADERS)
  = Returned (join lineFeed
      (reportsHeaderLine
       :: map (csvLine h REPORTS_CSV_HEADERS) (map (formatReport h) (r :: rs)))).
Proof.
  rewrite formatReportsForCSV_cons.
  rewrite convertToCSV_valid by apply (formatReports_valid h (r :: rs)).
  reflexivity.
Qed.

(** The reports export enters downloadFile once, with that text. *)
Lemma exportAsCSV_nonempty_reports h r rs baseFilename w :
  exportAsCSV h (Some (formatReportsForCSV h (Some (r :: rs)))) baseFilename
              (Some REPORTS_CSV_HEADERS) w
  = let csvContent :=
      join lineFeed
        (reportsHeaderLine
         :: map (csvLine h REPORTS_CSV_HEADERS) (map (formatReport h) (r :: rs))) in
    let filename := baseFilename +:+ "-" +:+ before "T" (nowISOString h)
                    +:+ ".csv" in
    let w' := World (exportLoading w) (exportMessage w)
                    (downloadCalls w ++ [(csvContent, filename, "text/csv")])
                    (clearTimers w) in
    match deliver h csvContent filename "text/csv" with
    | None => (Returned (ExportResult true filename), w')
    | Some _ =>
        (Thrown (Error "CSV export failed: Failed to download file"), w')
    end.
Proof.
  pose proof (convertToCSV_reports h r rs) as Htext.
  rewrite formatReportsForCSV_cons in Htext |- *.
  by rewrite exportAsCSV_nonempty, Htext.
Qed.

Lemma exportAsCSV_no_data h data baseFilename headers w :
  data = None ∨ data = Some [] →
  exportAsCSV h data baseFilename headers w
  = (Thrown (Error "CSV export failed: No data to export"), w).
Proof. by intros [-> | ->]. Qed.

(** Whatever exportAsCSV raises, and what was behind it. *)
Lemma exportAsCSV_thrown h data baseFilename headers w e w' :
  exportAsCSV h data baseFilename headers w = (Thrown e, w') →
  (data = None ∨ data = Some []) ∧ w' = w
  ∧ message e = "CSV export failed: No data to export"
  ∨ (∃ e0, convertToCSV h data headers = Thrown e0 ∧ w' = w
           ∧ message e0 = invalidTimeMessage h
           ∧ message e = "CSV export failed: " +:+ message e0)
  ∨ (∃ csvContent filename,
       convertToCSV h data headers = Returned csvContent
       ∧ deliver h csvContent filename "text/csv" ≠ None
       ∧ List.length (downloadCalls w') = S (List.length (downloadCalls w))
       ∧ message e = "CSV export failed: Failed to download file").
Proof.
  destruct data as [[|first rest]|].
  - rewrite exportAsCSV_no_data by auto. intros [= <- <-]. left. auto.
  - rewrite exportAsCSV_nonempty.
    destruct (convertToCSV h (Some (first :: rest)) headers) as [csvContent|e0] eqn:E.
    + cbv zeta. destruct (deliver h csvContent _ "text/csv") eqn:D;
        intros [= <- <-]. right. right. eexists _, _.
      split; [done|]. split; [by rewrite D|]. split; [|done].
      simpl. rewrite length_app. simpl. lia.
    + intros [= <- <-]. right. left. exists e0.
      destruct (decide (Forall (validCells (default (keys first) headers))
                               (first :: rest))) as [Hvalid|Hinvalid].
      * by rewrite convertToCSV_valid in E.
      * rewrite convertToCSV_invalid in E by done. by injection E as <-.
  - rewrite exportAsCSV_no_data by auto. intros [= <- <-]. left. auto.
Qed.

(** The click handler, outcome by outcome. *)
Lemma handleExportCSV_cases h data w :
  handleExportCSV h data w
  = match data with
    | None | Some [] =>
        (Returned (),
         World false "No data to export" (downloadCalls w) (clearTimers w))
    | Some rs =>
        match exportAsCSV h (Some (formatReportsForCSV h data)) "reports-export"
                          (Some REPORTS_CSV_HEADERS) (started w) with
        | (Returned result, w') =>
            (Returned (),
             if success result
             then World false
                    ("Successfully exported " +:+ pretty (List.length rs)
                     +:+ " reports to " +:+ filename result)
                    (downloadCalls w') (clearTimers w' ++ [5000%nat])
             else World false (exportMessage w') (downloadCalls w')
                        (clearTimers w'))
        | (Thrown e, w') =>
            (Returned (),
             World false ("Export failed: " +:+ message e)
                   (downloadCalls w') (clearTimers w' ++ [5000%nat]))
        end
    end.
Proof.
  unfold handleExportCSV.
  destruct data as [[|r rs]|]; try reflexivity.
  generalize (exportAsCSV h (Some (formatReportsForCSV h (Some (r :: rs))))
                          "reports-export" (Some REPORTS_CSV_HEADERS)).
  intros export.
  unfold try_finally, try_catch, mbind, M_bind, bind, setExportLoading,
    setExportMessage, clearMessageAfter, ret, started.
  simpl. destruct (export _) as [[result|e] w']; [|reflexivity].
  by destruct (success result).
Qed.

(** C3. When the record list is absent or empty, the click handler
    returns normally with the message No data to export, the loading flag
    cleared and no entry into downloadFile; exportAsCSV itself, given such
    a list, raises its no-data error without entering downloadFile. *)
Theorem export_without_data_reports_and_skips_download
    (h : Host) (data : option (list report)) (w : world) :
  data = None ∨ data = Some [] →
  handleExportCSV h data w
  = (Returned (),
     World false "No data to export" (downloadCalls w) (clearTimers w)) ∧
  ∀ (rows : option (list obj)) baseFilename headers,
    rows = None ∨ rows = Some [] →
    exportAsCSV h rows baseFilename headers w
    = (Thrown (Error "CSV export failed: No data to export"), w).
Proof.
  intros Hdata. split.
  - rewrite handleExportCSV_cases. by destruct Hdata as [-> | ->].
  - intros rows baseFilename headers Hrows. by apply exportAsCSV_no_data.
Qed.

Lemma export_without_data_reports_and_skips_download_witness :
  handleExportCSV Samples.host (Some []) Samples.idle
  = (Returned (), World false "No data to export" [] []).
Proof.
  apply (export_without_data_reports_and_skips_download
           Samples.host (Some []) Samples.idle).
  by right.
Defined.

(** C9. The click handler returns normally on every record list, host and
    screen state, with the loading flag cleared. Whatever exportAsCSV
    raises carries, after the words CSV export failed, the message of the
    error behind it: the no-data error for an absent or empty list, the
    error convertToCSV raised (that of toISOString on an invalid Date)
    when the serialization fails, or the error downloadFile raises when
    the delivery fails. When the export called by the handler raises, the
    handler shows Export failed followed by the message raised. *)
Theorem export_failures_become_messages
    (h : Host) (data : option (list report)) (w : world) :
  (∃ w', handleExportCSV h data w = (Returned (), w') ∧
         exportLoading w' = false) ∧
  (∀ rows baseFilename headers e w',
     exportAsCSV h rows baseFilename headers w = (Thrown e, w') →
     ∃ cause,
       message e = "CSV export failed: " +:+ cause ∧
       ((rows = None ∨ rows = Some []) ∧ cause = "No data to export"
        ∨ (∃ e0, convertToCSV h rows headers = Thrown e0 ∧
                 cause = message e0 ∧ cause = invalidTimeMessage h)
        ∨ (∃ csvContent filename,
             convertToCSV h rows headers = Returned csvContent ∧
             deliver h csvContent filename "text/csv" ≠ None ∧
             cause = "Failed to download file"))) ∧
  (∀ r rs e w',
     data = Some (r :: rs) →
     exportAsCSV h (Some (formatReportsForCSV h data)) "reports-export"
                 (Some REPORTS_CSV_HEADERS) (started w) = (Thrown e, w') →
     ∃ w'', handleExportCSV h data w = (Returned (), w'') ∧
            exportMessage w'' = "Export failed: " +:+ message e).
Proof.
  split; [|split].
  - rewrite handleExportCSV_cases.
    destruct data as [[|r rs]|]; try (eexists; split; reflexivity).
    destruct (exportAsCSV h _ _ _ (started w)) as [[result|e] w'].
    + destruct (success result); eexists; split; reflexivity.
    + eexists; split; reflexivity.
  - intros rows baseFilename headers e w' Hthrown.
    apply exportAsCSV_thrown in Hthrown
      as [(Hrows & _ & ->)|[(e0 & He0 & _ & Hm & ->)|(c & f & Hc & Hd & _ & ->)]].
    + exists "No data to export". split; [done|]. by left.
    + exists (message e0). split; [done|]. right. left. by exists e0.
    + exists "Failed to download file". split; [done|]. right. right.
      by exists c, f.
  - intros r rs e w' -> Hthrown.
    rewrite handleExportCSV_cases, Hthrown. eexists; split; reflexivity.
Qed.

Lemma export_failures_become_messages_witness :
  (∃ w', handleExportCSV Samples.brokenHost (Some [Samples.draft]) Samples.idle
         = (Returned (), w') ∧
         exportMessage w'
         = "Export failed: CSV export failed: Failed to download file") ∧
  ∃ cause,
    "CSV export failed: Invalid time value" = "CSV export failed: " +:+ cause ∧
    ∃ e0, convertToCSV Samples.brokenHost (Some [Samples.undated]) None = Thrown e0 ∧
          cause = message e0.
Proof.
  destruct (export_failures_become_messages
              Samples.brokenHost (Some [Samples.draft]) Samples.idle)
    as (_ & Hcause & Hshown).
  split; [exact (Hshown Samples.draft [] _ _ eq_refl eq_refl)|].
  destruct (Hcause (Some [Samples.undated]) "export" None
              (Error "CSV export failed: Invalid time value") Samples.idle eq_refl)
    as (cause & Hmsg & [[[?|?] _]|[(e0 & He0 & Hc & _)|(c & f & Hc & _)]]);
    try discriminate.
  exists cause. split; [exact Hmsg|]. by exists e0.
Defined.

(** ** useDebounce *)

Section DebounceProps.
Import Debounce.
Context {V : Type} `{EqDecision V}.
Variable delay : nat.
Local Open Scope nat_scope.

Implicit Types (s : hook V) (e : event V) (evs : list (event V)) (v : V).



Lemma mount_invariant now v : settled_or_pending delay (mount now v delay).
Proof. unfold settled_or_pending, mount, input. simpl. auto with lia. Qed.

Lemma step_invariant s e :
  settled_or_pending delay s → settled_or_pending delay (step delay s e).
Proof.
  unfold settled_or_pending, input. intros [Hd Ht].
  destruct e as [v|dt]; simpl.
  - unfold useDebounce. destruct (decide _); simpl; [done|]. auto with lia.
  - unfold elapse. destruct (timer s) as [[due v]|] eqn:E; simpl.
    + destruct Ht as [-> Hdue].
      destruct (due <=? clock s + dt) eqn:L; simpl; [done|].
      split; [done|]. split; [done|]. lia.
    + done.
Qed.


Lemma run_app s evs evs' :
  run delay s (evs ++ evs') = run delay (run delay s evs) evs'.
Proof. apply fold_left_app. Qed.






(** During a quiet period the input stays, the clock advances by the time
    elapsed, and a timer still pending is the one that was pending at the
    start. *)
Lemma quiet_run evs s spent :
  settled_or_pending delay s →
  quiet (input s) evs →
  (∀ due v, timer s = Some (due, v) →
            due + spent ≤ clock s + timeoutDelay delay) →
  let s' := run delay s evs in
  settled_or_pending delay s' ∧ input s' = input s ∧
  (debouncedValue s' = debouncedValue s ∨ debouncedValue s' = input s) ∧
  ∀ due v, timer s' = Some (due, v) →
    due + (spent + total evs) ≤ clock s' + timeoutDelay delay.
Proof.
  revert s spent. induction evs as [|e evs IH]; intros s spent Hs Hq Hb; simpl.
  { split; [done|]. split; [done|]. split; [by left|].
    intros due v Ht. specialize (Hb due v Ht). lia. }
  apply Forall_cons in Hq as [He Hq].
  assert (Hstep : input (step delay s e) = input s ∧
            (debouncedValue (step delay s e) = debouncedValue s
             ∨ debouncedValue (step delay s e) = input s) ∧
            ∀ due v, timer (step delay s e) = Some (due, v) →
              due + (spent + elapsed e)
              ≤ clock (step delay s e) + timeoutDelay delay).
  { pose proof Hs as [Hd Hpend].
    destruct e as [v|dt]; simpl.
    - subst v. unfold useDebounce.
      destruct (decide _) as [|Hne].
      + split; [done|]. split; [by left|].
        intros due v Ht. specialize (Hb due v Ht). lia.
      + exfalso. apply Hne. unfold input. destruct (deps s); simpl in *.
        by subst.
    - unfold elapse, input. destruct (timer s) as [[due v]|] eqn:E; simpl.
      + destruct Hpend as [Hv _].
        destruct (due <=? clock s + dt) eqn:L; simpl.
        * split; [done|]. split; [by right|]. done.
        * split; [done|]. split; [by left|].
          intros due' v' [= <- <-]. specialize (Hb due v eq_refl). lia.
      + split; [done|]. split; [by left|]. done. }
  destruct Hstep as (Hin & Hout & Hbudget).
  destruct (IH (step delay s e) (spent + elapsed e) (step_invariant s e Hs))
    as (Hs' & Hin' & Hout' & Hb').
  { by rewrite Hin. }
  { exact Hbudget. }
  split; [done|]. split; [congruence|]. split.
  - destruct Hout' as [->| ->]; [done|]. right. congruence.
  - intros due v Ht. specialize (Hb' due v Ht). simpl in Hb'. lia.
Qed.

(** After a quiet period as long as a timer runs the output is the
    input. *)
Lemma quiet_settles s evs dt :
  settled_or_pending delay s →
  quiet (input s) evs →
  timeoutDelay delay ≤ total evs + dt →
  debouncedValue (run delay s (evs ++ [Elapse dt])) = input s.
Proof.
  intros Hs Hq Hlong. rewrite run_app. simpl.
  destruct (quiet_run evs s 0 Hs Hq) as ([_ Ht] & Hin & _ & Hb).
  { intros due v E. destruct Hs as [_ Hs]. rewrite E in Hs. lia. }
  unfold elapse. destruct (timer (run delay s evs)) as [[due v]|] eqn:E; simpl.
  - specialize (Hb due v eq_refl). destruct Ht as [-> _].
    destruct (due <=? _) eqn:L; simpl; [done|].
    apply Nat.leb_gt in L. lia.
  - congruence.
Qed.

(** Whatever is output during a quiet period is the output it started
    with or the input. *)
Lemma quiet_trace evs s :
  settled_or_pending delay s →
  quiet (input s) evs →
  Forall (λ s', debouncedValue s' = debouncedValue s
                ∨ debouncedValue s' = input s)
         (trace delay s evs).
Proof.
  revert s. induction evs as [|e evs IH]; intros s Hs Hq; simpl.
  { constructor. }
  pose proof Hq as [He Hq']%Forall_cons.
  destruct (quiet_run [e] s 0 Hs) as (Hs' & Hin & Hout & _).
  { by repeat constructor. }
  { intros due v E. destruct Hs as [_ Hs]. rewrite E in Hs. lia. }
  simpl in Hs', Hin, Hout. constructor; [exact Hout|].
  specialize (IH (step delay s e) Hs'). rewrite Hin in IH.
  specialize (IH Hq'). eapply Forall_impl; [exact IH|].
  intros s' [Hsame|Hnew]; [|by right].
  rewrite Hsame. exact Hout.
Qed.




End DebounceProps.

Lemma timeoutDelay_300 : Debounce.timeoutDelay 300 = 300%nat.
Proof. reflexivity. Qed.




(** ** FiltersForm *)

Section FiltersFormProps.
Import FiltersForm.
Local Open Scope nat_scope.

Implicit Types (init f o : gmap string prim) (st : form) (d : prim).

Lemma elem_of_keysOf o key : key ∈ keysOf o ↔ is_Some (o !! key).
Proof.
  unfold keysOf. rewrite list_elem_of_fmap. split.
  - intros [[k v] [-> Hin]]. apply elem_of_map_to_list in Hin. by exists v.
  - intros [v Hv]. exists (key, v). split; [done|].
    by apply elem_of_map_to_list.
Qed.

Lemma hasChanged_true init o :
  hasChanged init o = true ↔
  ∃ key, is_Some (o !! key) ∧ get o key ≠ or (get init key) (PStr "").
Proof.
  unfold hasChanged. rewrite existsb_exists. split.
  - intros (key & Hin & Hne). exists key. split.
    + by apply elem_of_keysOf, list_elem_of_In.
    + apply negb_true_iff in Hne. unfold strict_eq in Hne.
      by apply bool_decide_eq_false in Hne.
  - intros (key & Hin & Hne). exists key. split.
    + by apply list_elem_of_In, elem_of_keysOf.
    + apply negb_true_iff. unfold strict_eq. by apply bool_decide_eq_false.
Qed.

(** On a string, or on a field that is not there, [||] and [??] pick the
    same baseline. *)
Lemma or_is_baseline init key :
  stringValued init → or (get init key) (PStr "") = baseline init key.
Proof.
  intros Hstr. unfold baseline, get.
  destruct (init !! key) as [v|] eqn:E; simpl; [|done].
  destruct (Hstr key v E) as [s ->]. unfold or, coalesce. simpl.
  destruct (String.eqb s "") eqn:Es; simpl; [|done].
  apply String.eqb_eq in Es. by subst.
Qed.

Lemma sixFields_is_Some f key :
  sixFields f → (is_Some (f !! key) ↔ key ∈ fieldNames).
Proof.
  unfold sixFields. intros Hdom.
  rewrite <- elem_of_dom, Hdom. apply elem_of_list_to_set.
Qed.

Lemma partialFilterState_stringValued init :
  partialFilterState init → stringValued init.
Proof. intros Hp k v Hk. by destruct (Hp k v Hk). Qed.

Lemma sixFields_resetFilters : sixFields resetFilters.
Proof. unfold sixFields, resetFilters. rewrite dom_list_to_map_L. done. Qed.

Lemma sixFields_initialState init :
  partialFilterState init → sixFields (initialState init).
Proof.
  intros Hp. unfold sixFields, initialState.
  rewrite dom_union_L, dom_list_to_map_L.
  apply subseteq_union_1_L.
  intros k Hk. apply elem_of_dom in Hk as [v Hv].
  apply elem_of_list_to_set. by destruct (Hp k v Hv).
Qed.

Lemma sixFields_insert f key v :
  key ∈ fieldNames → sixFields f → sixFields (<[key := v]> f).
Proof.
  unfold sixFields. intros Hkey Hdom. rewrite dom_insert_L, Hdom.
  apply subseteq_union_1_L, singleton_subseteq_l.
  by apply elem_of_list_to_set.
Qed.

Lemma controlField_fieldNames c : controlField c ∈ fieldNames.
Proof.
  destruct c; simpl; unfold fieldNames;
    repeat first [apply list_elem_of_here | apply list_elem_of_further].
Qed.

Lemma search_fieldNames : "search" ∈ fieldNames.
Proof.
  unfold fieldNames.
  repeat first [apply list_elem_of_here | apply list_elem_of_further].
Qed.

(** The change detection of the effect, read with the baseline of the
    specification. *)
Lemma hasChanged_differs init f d :
  stringValued init → sixFields f →
  hasChanged init (currentFilters f d) = true ↔
  differs init (currentFilters f d).
Proof.
  intros Hstr Hsix.
  assert (Hcur : sixFields (currentFilters f d))
    by (apply sixFields_insert; [apply search_fieldNames|done]).
  rewrite hasChanged_true. unfold differs. split.
  - intros (key & Hin & Hne). exists key. split.
    + by apply (sixFields_is_Some _ _ Hcur).
    + by rewrite <- or_is_baseline.
  - intros (key & Hin & Hne). exists key. split.
    + by apply (sixFields_is_Some _ _ Hcur).
    + by rewrite or_is_baseline.
Qed.

Lemma autoSubmit_elem init f d x :
  x ∈ autoSubmit init f d →
  x = (FromEffect, currentFilters f d) ∧
  hasChanged init (currentFilters f d) = true.
Proof.
  unfold autoSubmit. destruct (hasChanged _ _); [|by intros ?%elem_of_nil].
  by intros ->%list_elem_of_singleton.
Qed.

Lemma render_ok init st :
  stringValued init → reachable_ok init st → reachable_ok init (render init st).
Proof.
  intros Hstr [Hsix Hlog]. unfold render.
  destruct (decide _); split; simpl; try done.
  intros o [Hin|Hin]%elem_of_app; [by apply Hlog|].
  apply autoSubmit_elem in Hin as [[= ->] Hch].
  by apply hasChanged_differs in Hch.
Qed.

Lemma mount_ok init now :
  partialFilterState init → reachable_ok init (mount init now).
Proof.
  intros Hp. pose proof (sixFields_initialState init Hp) as Hsix.
  split; simpl; [done|].
  intros o Hin. apply autoSubmit_elem in Hin as [[= ->] Hch].
  apply hasChanged_differs in Hch; auto using partialFilterState_stringValued.
Qed.

Lemma step_ok init st e :
  stringValued init → reachable_ok init st → reachable_ok init (step init st e).
Proof.
  intros Hstr [Hsix Hlog].
  destruct e as [c v|v| | |dt]; simpl; apply render_ok; try done.
  - split; simpl; [|done].
    apply sixFields_insert; [apply controlField_fieldNames|done].
  - split; simpl; [|done].
    apply sixFields_insert; [apply search_fieldNames|done].
  - split; simpl; [done|].
    intros o [Hin|Hin]%elem_of_app; [by apply Hlog|].
    by apply list_elem_of_singleton in Hin.
  - split; simpl; [apply sixFields_resetFilters|].
    intros o [Hin|Hin]%elem_of_app; [by apply Hlog|].
    by apply list_elem_of_singleton in Hin.
Qed.

Lemma run_ok init now evs :
  partialFilterState init → reachable_ok init (run init now evs).
Proof.
  intros Hp. unfold run.
  assert (Hgen : ∀ st, reachable_ok init st →
                       reachable_ok init (fold_left (step init) evs st)).
  { induction evs as [|e evs IH]; intros st Hst; simpl; [done|].
    apply IH, step_ok; auto using partialFilterState_stringValued. }
  apply Hgen, mount_ok, Hp.
Qed.

(** C4. With initialFilters a partial FilterState, in every state the
    form reaches from its mount: each emission made by the auto-submit
    effect had at least one of the six fields different from
    initialFilters[field] ?? ''; the change detection of the effect is
    true exactly when such a field exists in the combined filters (the
    state with search replaced by the debounced search), the effect then
    emitting these filters and otherwise nothing; so when every field is
    at its baseline the effect emits nothing. *)
Theorem auto_emission_only_when_a_field_differs
    init (now : nat) (evs : list event) :
  partialFilterState init →
  let st := run init now evs in
  (∀ o, (FromEffect, o) ∈ submitted st → differs init o) ∧
  ∀ d,
    let combined := currentFilters (filters st) d in
    (hasChanged init combined = true ↔ differs init combined) ∧
    autoSubmit init (filters st) d
    = (if hasChanged init combined then [(FromEffect, combined)] else []) ∧
    ((∀ field, field ∈ fieldNames →
               get combined field = baseline init field) →
     autoSubmit init (filters st) d = []).
Proof.
  intros Hp st. destruct (run_ok init now evs Hp) as [Hsix Hlog].
  split; [exact Hlog|]. intros d combined.
  pose proof (hasChanged_differs init (filters st) d
                (partialFilterState_stringValued init Hp) Hsix) as Hiff.
  split; [exact Hiff|]. split; [reflexivity|].
  intros Hsame. unfold autoSubmit. fold combined.
  destruct (hasChanged init combined) eqn:Hch; [|done].
  apply Hiff in Hch as (field & Hin & Hne). by destruct (Hne (Hsame field Hin)).
Qed.


Lemma render_submitted init st :
  ∃ later,
    submitted (render init st) = (submitted st ++ later)%list ∧
    Forall (λ x, x.1 = FromEffect) later.
Proof.
  unfold render. destruct (decide _); simpl.
  - exists []. split; [by rewrite app_nil_r|constructor].
  - eexists. split; [reflexivity|].
    unfold autoSubmit. destruct (hasChanged _ _); repeat constructor.
Qed.

(** C5. From any state of the form, handleReset sets the filter state to
    the object of the six fields, each the empty string, and appends
    exactly that object to the calls of the apply-filters callback. It
    does so at once: the debounce hook, its clock and its pending timer
    are left as they were, and the object is emitted although it may
    equal the baseline, as it does for an empty initialFilters. In the
    log of the whole click, re-render included, the emission of the
    reset is the first new entry and only emissions of the effect can
    follow it. *)
Theorem reset_emits_cleared_filters init st :
  let st' := handleReset st in
  filters st' = resetFilters ∧
  sixFields resetFilters ∧
  (∀ field, field ∈ fieldNames → get resetFilters field = PStr "") ∧
  submitted st' = (submitted st ++ [(FromReset, resetFilters)])%list ∧
  searchHook st' = searchHook st ∧
  hasChanged ∅ (currentFilters resetFilters (PStr "")) = false ∧
  ∃ later,
    submitted (step init st ResetClick)
    = (submitted st ++ (FromReset, resetFilters) :: later)%list ∧
    Forall (λ x, x.1 = FromEffect) later.
Proof.
  simpl. split; [done|]. split; [apply sixFields_resetFilters|].
  split.
  { intros field Hin. unfold fieldNames in Hin.
    repeat (apply elem_of_cons in Hin as [->|Hin]; [reflexivity|]).
    by apply elem_of_nil in Hin. }
  split; [done|]. split; [done|]. split; [by vm_compute|].
  destruct (render_submitted init (handleReset st)) as (later & Heq & Hlater).
  exists later. split; [|done].
  rewrite Heq. simpl. by rewrite <- app_assoc.
Qed.

End FiltersFormProps.

Lemma auto_emission_only_when_a_field_differs_witness :
  let st := FiltersForm.run Samples.draftOnly 0
              [FiltersForm.Change FiltersForm.Status "";
               FiltersForm.Change FiltersForm.Status "draft"] in
  (∀ o, (FiltersForm.FromEffect, o) ∈ FiltersForm.submitted st →
        FiltersForm.differs Samples.draftOnly o) ∧
  FiltersForm.autoSubmit Samples.draftOnly (FiltersForm.filters st) (PStr "")
  = [].
Proof.
  assert (Hp : FiltersForm.partialFilterState Samples.draftOnly).
  { intros k v Hk. unfold Samples.draftOnly in Hk.
    apply lookup_singleton_Some in Hk as [<- <-].
    split; [apply list_elem_of_here|by eexists]. }
  pose proof (auto_emission_only_when_a_field_differs
                Samples.draftOnly 0%nat
                [FiltersForm.Change FiltersForm.Status "";
                 FiltersForm.Change FiltersForm.Status "draft"] Hp)
    as [Hlog Heffect].
  split; [exact Hlog|].
  apply (Heffect (PStr "")).
  intros field Hin. unfold FiltersForm.fieldNames in Hin.
  repeat (apply elem_of_cons in Hin as [->|Hin]; [by vm_compute|]).
  by apply elem_of_nil in Hin.
Defined.

(** Outside the data model the comparison of the code and the baseline of
    the specification part: with the number 0 for status, the effect emits
    on mount although every field is at its [??] baseline. *)
Example auto_emission_on_falsy_number :
  map fst (FiltersForm.submitted (FiltersForm.mount Samples.zeroStatus 0))
  = [FiltersForm.FromEffect] ∧
  FiltersForm.get (FiltersForm.initialState Samples.zeroStatus) "status"
  = FiltersForm.baseline Samples.zeroStatus "status".
Proof. by vm_compute. Qed.

(** * Further properties of the code *)

(** ** The exported text read back *)

Lemma hasDelimiter_cons a s :
  hasDelimiter (String a s) = false →
  Ascii.eqb a comma = false ∧ Ascii.eqb a dquote = false ∧
  Ascii.eqb a newline = false ∧ hasDelimiter s = false.
Proof.
  unfold hasDelimiter. simpl. intros H.
  apply orb_false_elim in H as [H H3]. apply orb_false_elim in H as [H1 H2].
  destruct (Ascii.eqb a comma); [discriminate|].
  destruct (Ascii.eqb a dquote); [discriminate|].
  destruct (Ascii.eqb a newline); [discriminate|].
  by rewrite H1, H2, H3.
Qed.

Lemma append_nil_l r : "" +:+ r = r.
Proof. reflexivity. Qed.

Lemma append_cons b s r : String b s +:+ r = String b (s +:+ r).
Proof. reflexivity. Qed.

Lemma append_snoc s a r : (s +:+ String a "") +:+ r = s +:+ String a r.
Proof.
  induction s as [|b s IH]; [done|]. rewrite !append_cons. by f_equal.
Qed.

Lemma append_empty_r s : s +:+ "" = s.
Proof.
  induction s as [|b s IH]; [done|]. rewrite append_cons. by f_equal.
Qed.

Lemma append_assoc' s t r : (s +:+ t) +:+ r = s +:+ (t +:+ r).
Proof.
  induction s as [|b s IH]; [done|]. rewrite !append_cons. by f_equal.
Qed.

(** A field without delimiter is read character by character. *)
Lemma parseCSV_plain s r field record :
  hasDelimiter s = false →
  parseCSV (s +:+ r) false field record = parseCSV r false (field +:+ s) record.
Proof.
  revert field. induction s as [|a s IH]; intros field Hs.
  { by rewrite append_nil_l, append_empty_r. }
  apply hasDelimiter_cons in Hs as (Hc & Hq & Hn & Hs).
  rewrite append_cons. simpl parseCSV. rewrite Hc, Hq, Hn.
  rewrite IH by done. by rewrite append_snoc.
Qed.

(** Inside quotes the doubled text is read back as the text, and the
    single double quote after it closes the quoted part. *)
Lemma parseCSV_quoted_body s r field record :
  notQuoteNext r →
  parseCSV (doubleQuotes s +:+ String dquote r) true field record
  = parseCSV r false (field +:+ s) record.
Proof.
  intros Hr. revert field. induction s as [|a s IH]; intros field.
  { simpl doubleQuotes. rewrite append_nil_l, append_empty_r.
    destruct r as [|c r]; [done|]. simpl in Hr. simpl parseCSV.
    change (Ascii.eqb dquote dquote) with true. cbv iota. by rewrite Hr. }
  simpl doubleQuotes. destruct (Ascii.eqb a dquote) eqn:E.
  - apply Ascii.eqb_eq in E. subst a. rewrite !append_cons.
    simpl parseCSV at 1. change (Ascii.eqb dquote dquote) with true. cbv iota.
    rewrite IH. by rewrite append_snoc.
  - rewrite append_cons. simpl parseCSV at 1. rewrite E.
    rewrite IH. by rewrite append_snoc.
Qed.

Lemma parseCSV_field s r field record :
  notQuoteNext r →
  parseCSV (escapeCSVValue (PStr s) +:+ r) false field record
  = parseCSV r false (field +:+ s) record.
Proof.
  intros Hr. destruct (hasDelimiter s) eqn:Hs.
  - rewrite escapeCSVValue_quoted by done. unfold quoted.
    rewrite append_cons, append_snoc. simpl parseCSV at 1.
    change (Ascii.eqb dquote comma) with false.
    change (Ascii.eqb dquote newline) with false.
    change (Ascii.eqb dquote dquote) with true. cbv iota.
    by apply parseCSV_quoted_body.
  - rewrite escapeCSVValue_plain by done. simpl. by apply parseCSV_plain.
Qed.

Lemma last_cons_default (texts : list string) (text text' : string) :
  List.last (text' :: texts) text = List.last texts text'.
Proof.
  revert text text'. induction texts as [|t texts IH]; intros text text'; [done|].
  change (List.last (text' :: t :: texts) text) with (List.last (t :: texts) text).
  change (List.last (t :: texts) text') with (List.last (t :: texts) text').
  by rewrite (IH text t), (IH text' t).
Qed.

Lemma parseCSV_end inQuotes field record :
  parseCSV "" inQuotes field record = [(record ++ [field])%list].
Proof. reflexivity. Qed.

Lemma parseCSV_comma s field record :
  parseCSV (String comma s) false field record
  = parseCSV s false "" (record ++ [field])%list.
Proof. reflexivity. Qed.

Lemma parseCSV_newline s field record :
  parseCSV (String newline s) false field record
  = (record ++ [field])%list :: parseCSV s false "" [].
Proof. reflexivity. Qed.

(** One record: the escaped fields joined by commas are read back as the
    fields; the last one is still open when the rest [r] begins. *)
Lemma parseCSV_record (texts : list string) (text : string) r record :
  notQuoteNext r →
  parseCSV (join "," (map (λ t, escapeCSVValue (PStr t)) (text :: texts)) +:+ r)
           false "" record
  = parseCSV r false (List.last texts text)
             (record ++ removelast (text :: texts))%list.
Proof.
  intros Hr. revert text record.
  induction texts as [|text' texts IH]; intros text record.
  - simpl map. simpl join. rewrite parseCSV_field by done.
    rewrite append_nil_l. simpl. by rewrite app_nil_r.
  - rewrite (map_cons _ text), (map_cons _ text'), join_cons.
    change (escapeCSVValue (PStr text') :: map ?f texts)
      with (map f (text' :: texts)).
    rewrite !append_assoc'. rewrite parseCSV_field by done.
    rewrite append_nil_l.
    change ("," +:+ ?x) with (String comma x). rewrite parseCSV_comma.
    rewrite IH. rewrite last_cons_default.
    change (removelast (text :: text' :: texts))
      with (text :: removelast (text' :: texts)).
    by rewrite <- app_assoc.
Qed.

Lemma removelast_last (texts : list string) (text : string) :
  (removelast (text :: texts) ++ [List.last texts text])%list = text :: texts.
Proof.
  revert text. induction texts as [|t texts IH]; intros text; [done|].
  change (removelast (text :: t :: texts)) with (text :: removelast (t :: texts)).
  rewrite (last_cons_default texts text t).
  rewrite <- app_comm_cons. f_equal. apply IH.
Qed.

(** A document: records joined by line feeds are read back one by one. *)
Lemma readCSV_records (records : list (list string)) (first : list string) :
  Forall (λ texts, texts ≠ []) (first :: records) →
  readCSV (join lineFeed
             (map (λ texts, join "," (map (λ t, escapeCSVValue (PStr t)) texts))
                  (first :: records)))
  = first :: records.
Proof.
  unfold readCSV. revert first.
  induction records as [|next records IH]; intros first Hne.
  - apply Forall_cons in Hne as [Hfirst _].
    destruct first as [|text texts]; [done|].
    change (join lineFeed (map ?f [?l])) with (f l). cbv beta.
    rewrite <- (append_empty_r (join "," _)).
    rewrite parseCSV_record by done.
    rewrite parseCSV_end, app_nil_l. by rewrite removelast_last.
  - apply Forall_cons in Hne as [Hfirst Hrest].
    destruct first as [|text texts]; [done|].
    rewrite (map_cons _ (text :: texts)), (map_cons _ next), join_cons.
    change (join "," (map ?g next) :: map ?f records)
      with (map f (next :: records)).
    unfold lineFeed at 1.
    rewrite parseCSV_record by done.
    rewrite append_cons, append_nil_l, parseCSV_newline.
    rewrite app_nil_l, removelast_last. f_equal.
    by apply IH.
Qed.

(** The text of a non-empty row list with no invalid Date among its
    cells, read back: the header record, then for each row the texts of
    its cells. *)
Lemma readCSV_document h (csvHeaders : list string) (rows : list obj) :
  csvHeaders ≠ [] →
  readCSV (join lineFeed
             (join "," (map (λ header, escapeCSVValue (PStr header)) csvHeaders)
              :: map (csvLine h csvHeaders) rows))
  = csvHeaders
    :: map (λ row, map (λ header, cellText h (prop row header)) csvHeaders) rows.
Proof.
  intros Hheaders.
  set (texts := λ row : obj, map (λ header, cellText h (prop row header)) csvHeaders).
  assert (Hrows : map (csvLine h csvHeaders) rows
                  = map (λ ts, join "," (map (λ t, escapeCSVValue (PStr t)) ts))
                        (map texts rows)).
  { rewrite map_map. apply map_ext. intros row.
    unfold csvLine, texts. by rewrite map_map. }
  rewrite Hrows.
  change (join "," (map (λ header, escapeCSVValue (PStr header)) csvHeaders)
          :: map ?f (map texts rows))
    with (map f (csvHeaders :: map texts rows)).
  apply readCSV_records. constructor; [done|].
  apply Forall_forall. intros ts Hin.
  apply list_elem_of_In, in_map_iff in Hin as (row & <- & _).
  unfold texts. destruct csvHeaders; [done|]. discriminate.
Qed.

(** X1. For a non-empty row list with at least one column, convertToCSV
    returns a text exactly when no cell it reads is an invalid Date, and
    raises the error of toISOString otherwise. Read back as CSV, the text
    is the header record followed by one record per row, in order, the
    fields of a record being the texts of the cells in header order: no
    comma, double quote or line feed inside a value moves a field or a
    record boundary. *)
Theorem convertToCSV_reads_back h first rest headers :
  default (keys first) headers ≠ [] →
  match convertToCSV h (Some (first :: rest)) headers with
  | Returned text =>
      Forall (validCells (default (keys first) headers)) (first :: rest) ∧
      readCSV text
      = default (keys first) headers
        :: map (λ row, map (λ header, cellText h (prop row header))
                           (default (keys first) headers))
               (first :: rest)
  | Thrown e =>
      ¬ Forall (validCells (default (keys first) headers)) (first :: rest) ∧
      e = Error (invalidTimeMessage h)
  end.
Proof.
  intros Hheaders.
  destruct (decide (Forall (validCells (default (keys first) headers))
                           (first :: rest))) as [Hvalid|Hinvalid].
  - rewrite convertToCSV_valid by done. split; [done|].
    by apply readCSV_document.
  - by rewrite convertToCSV_invalid.
Qed.

Lemma convertToCSV_reads_back_witness :
  ∃ text,
    convertToCSV Samples.host (Some [Samples.tricky]) None = Returned text ∧
    readCSV text
    = [ ["name"; "note"; "n"];
        ["Doe, Jane";
         "said " +:+ String dquote ("hi" +:+ String dquote (String newline "twice"));
         "7"] ].
Proof.
  eexists. split; [reflexivity|].
  exact (proj2 (convertToCSV_reads_back Samples.host Samples.tricky [] None
                  ltac:(discriminate))).
Defined.

(** ** Columns *)

Lemma rowLine_ext h (csvHeaders : list string) (row row' : obj) :
  (∀ header, header ∈ csvHeaders → prop row header = prop row' header) →
  rowLine h csvHeaders row = rowLine h csvHeaders row'.
Proof.
  intros Hsame. unfold rowLine, rowCells. f_equal. f_equal.
  apply map_ext_in. intros header Hin.
  f_equal. apply Hsame. by apply list_elem_of_In.
Qed.

(** X2. With explicit headers convertToCSV reads a row only through the
    properties the headers name: two row lists that agree, row by row, on
    those properties give the same text, or the same error, whatever the
    order of the keys and whatever other properties the rows carry. *)
Theorem convertToCSV_depends_on_headed_properties
    h (headers : list string) (rows rows' : list obj) :
  Forall2 (λ row row', ∀ header, header ∈ headers →
                                 prop row header = prop row' header)
          rows rows' →
  convertToCSV h (Some rows) (Some headers)
  = convertToCSV h (Some rows') (Some headers).
Proof.
  intros Hsame. destruct Hsame as [|row row' rows rows' Hrow Hrows]; [done|].
  rewrite !convertToCSV_nonempty. simpl default. f_equal. f_equal.
  assert (Hall : Forall2 (λ r r', ∀ header, header ∈ headers →
                                    prop r header = prop r' header)
                         (row :: rows) (row' :: rows'))
    by by constructor.
  clear Hrow Hrows. induction Hall as [|r r' rs rs' Hr _ IH]; [done|].
  rewrite !map_cons. f_equal; [|exact IH]. by apply rowLine_ext.
Qed.

Lemma convertToCSV_depends_on_headed_properties_witness :
  convertToCSV Samples.host (Some [Samples.tricky]) (Some ["name"; "note"; "n"])
  = convertToCSV Samples.host (Some [Samples.trickyShuffled])
                 (Some ["name"; "note"; "n"]).
Proof.
  apply convertToCSV_depends_on_headed_properties.
  constructor; [|constructor].
  intros header Hin.
  repeat (apply elem_of_cons in Hin as [->|Hin]; [reflexivity|]).
  by apply elem_of_nil in Hin.
Defined.

Lemma keys_formatReport h r : keys (formatReport h r) = REPORTS_CSV_HEADERS.
Proof. reflexivity. Qed.

(** X3. Every row formatReportsForCSV builds has exactly the keys of
    REPORTS_CSV_HEADERS in that order, one row per report; so for the
    formatted rows convertToCSV gives the same text whether it is handed
    REPORTS_CSV_HEADERS or left to take the keys of the first row. *)
Theorem formatReportsForCSV_keys_are_the_headers
    h (reports : option (list report)) :
  let rows := formatReportsForCSV h reports in
  List.length rows = List.length (default [] reports) ∧
  Forall (λ row, keys row = REPORTS_CSV_HEADERS) rows ∧
  convertToCSV h (Some rows) (Some REPORTS_CSV_HEADERS)
  = convertToCSV h (Some rows) None.
Proof.
  destruct reports as [[|r rs]|]; simpl; try by repeat split.
  split; [by rewrite length_map|]. split; [|reflexivity].
  constructor; [apply keys_formatReport|].
  apply Forall_forall. intros row Hin.
  apply list_elem_of_In, in_map_iff in Hin as (r' & <- & _).
  apply keys_formatReport.
Qed.

(** ** The reports export *)

(** X4. convertToCSV returns a text for every non-empty list of reports
    formatted by formatReportsForCSV. In that text, read back as CSV, the
    record after the header that stands at the position of a report has
    eleven fields, and its second field is the title of the report as it
    was, commas, double quotes and line feeds included, unless the title
    begins like an ISO timestamp: then it is what toLocaleDateString makes
    of it. *)
Theorem report_title_survives_export h (rs : list report) (i : nat) r s :
  rs !! i = Some r →
  title r = PStr s →
  ∃ text record,
    convertToCSV h (Some (formatReportsForCSV h (Some rs)))
                 (Some REPORTS_CSV_HEADERS) = Returned text ∧
    readCSV text !! S i = Some record ∧
    List.length record = 11%nat ∧
    record !! 1%nat
    = Some (if matchPrefix isoTimestampPattern s
            then toLocaleDateString h (PStr s) else s).
Proof.
  intros Hi Htitle. destruct rs as [|r0 rs]; [done|].
  eexists _, _. split; [apply convertToCSV_reports|].
  change reportsHeaderLine
    with (join "," (map (λ header, escapeCSVValue (PStr header))
                        REPORTS_CSV_HEADERS)).
  rewrite readCSV_document by done. rewrite map_map.
  change ((?x :: ?l) !! S i) with (l !! i).
  rewrite map_lookup, Hi. split; [reflexivity|].
  split; [reflexivity|].
  unfold REPORTS_CSV_HEADERS. rewrite !map_cons. cbn [lookup list_lookup].
  change (prop (formatReport h r) "Title") with (VPrim (title r)).
  by rewrite Htitle.
Qed.

Lemma report_title_survives_export_witness :
  ∃ text record,
    convertToCSV Samples.host
      (Some (formatReportsForCSV Samples.host
               (Some [Samples.draft; Samples.awkward])))
      (Some REPORTS_CSV_HEADERS) = Returned text ∧
    readCSV text !! 2%nat = Some record ∧
    List.length record = 11%nat ∧
    record !! 1%nat
    = Some ("Q1, " +:+ String dquote ("final" +:+ String dquote
              (String newline "draft"))).
Proof.
  exact (report_title_survives_export Samples.host
           [Samples.draft; Samples.awkward] 1 Samples.awkward _
           eq_refl eq_refl).
Defined.

(** ** The date in the file name *)

Lemma digit_is_not_T c : isDigit c = true → Ascii.eqb c "T" = false.
Proof.
  intros Hc. destruct (Ascii.eqb c "T") eqn:E; [|done].
  apply Ascii.eqb_eq in E. subst c. vm_compute in Hc. discriminate Hc.
Qed.

Lemma dash_is_not_T c : Ascii.eqb c "-" = true → Ascii.eqb c "T" = false.
Proof. intros Hc. apply Ascii.eqb_eq in Hc. by subst c. Qed.

(** Of a text that begins like an ISO timestamp, the part before the
    first T is the first ten characters. *)
Lemma before_T_of_timestamp s :
  matchPrefix isoTimestampPattern s = true →
  before "T" s = substring 0 10 s ∧ String.length (before "T" s) = 10%nat.
Proof.
  unfold isoTimestampPattern. intros H.
  do 11 (destruct s as [|? s]; [by simpl in H|];
         cbn [matchPrefix] in H; apply andb_prop in H as [? H]).
  clear H. cbn [patMatches] in *. simpl before.
  repeat match goal with
         | Hd : isDigit ?c = true |- _ =>
             rewrite (digit_is_not_T c Hd); clear Hd
         | Hd : Ascii.eqb ?c "-" = true |- _ =>
             rewrite (dash_is_not_T c Hd); clear Hd
         | Hd : Ascii.eqb ?c "T" = true |- _ => rewrite Hd; clear Hd
         end.
  by split.
Qed.

(** X5. When the host prints the current time as an ISO timestamp, the
    date in the file name is its first ten characters. An exportAsCSV call
    on a non-empty list for which convertToCSV returns a text enters
    downloadFile exactly once, with that text, the MIME type text/csv and
    the file name made of the base name, a dash, the date and .csv;
    nothing else of the screen state changes, and a call that returns
    reports that same file name. When convertToCSV raises, on an invalid
    Date, the call raises that error wrapped and leaves the screen state
    as it was, downloadFile not entered. *)
Theorem exportAsCSV_file_name
    h first rest (baseFilename : string) headers w :
  matchPrefix isoTimestampPattern (nowISOString h) = true →
  let day := substring 0 10 (nowISOString h) in
  let filename := baseFilename +:+ "-" +:+ day +:+ ".csv" in
  let export := exportAsCSV h (Some (first :: rest)) baseFilename headers w in
  String.length day = 10%nat ∧
  match convertToCSV h (Some (first :: rest)) headers with
  | Returned csvContent =>
      downloadCalls export.2
      = (downloadCalls w ++ [(csvContent, filename, "text/csv")])%list ∧
      exportLoading export.2 = exportLoading w ∧
      exportMessage export.2 = exportMessage w ∧
      clearTimers export.2 = clearTimers w ∧
      ∀ result, export.1 = Returned result →
                result = ExportResult true filename
  | Thrown e =>
      export = (Thrown (Error ("CSV export failed: " +:+ message e)), w)
  end.
Proof.
  intros Hiso day filename export.
  destruct (before_T_of_timestamp _ Hiso) as [Hday Hlen].
  subst export. rewrite exportAsCSV_nonempty. rewrite Hday. fold day filename.
  split; [by rewrite Hday in Hlen|].
  destruct (convertToCSV h (Some (first :: rest)) headers) as [csvContent|e];
    [|done].
  cbv zeta. destruct (deliver h _ _ _); simpl; repeat split; try done.
  by intros result [= <-].
Qed.

Lemma exportAsCSV_file_name_witness :
  downloadCalls
    (exportAsCSV Samples.host (Some [Samples.ab]) "export" None Samples.idle).2
  = [("a,b" +:+ lineFeed +:+ "1,2", "export-2024-01-02.csv", "text/csv")] ∧
  exportAsCSV Samples.host (Some [Samples.undated]) "export" None Samples.idle
  = (Thrown (Error "CSV export failed: Invalid time value"), Samples.idle).
Proof.
  split.
  - exact (proj1 (proj2 (exportAsCSV_file_name Samples.host Samples.ab []
                           "export" None Samples.idle eq_refl))).
  - exact (proj2 (exportAsCSV_file_name Samples.host Samples.undated []
                    "export" None Samples.idle eq_refl)).
Defined.

(** ** The click handler on a loaded list *)

Lemma isErrorMessage_export_failed m :
  isErrorMessage ("Export failed: " +:+ m) = true.
Proof. reflexivity. Qed.

(** X6. A click on the export button with a non-empty record list
    converts the formatted rows to a text, enters downloadFile exactly
    once with it, for the file named after reports-export, schedules one
    clearing of the message after 5000 milliseconds and ends with the
    loading flag off. When the host delivers the file the message names
    the number of reports and the file; when it does not, the message is
    Export failed followed by the error of the export, and it is shown in
    the error colours. *)
Theorem handleExportCSV_on_loaded_list h r rs w :
  let data := Some (r :: rs) in
  let filename :=
    "reports-export" +:+ "-" +:+ before "T" (nowISOString h) +:+ ".csv" in
  let after := (handleExportCSV h data w).2 in
  ∃ csvContent,
    convertToCSV h (Some (formatReportsForCSV h data)) (Some REPORTS_CSV_HEADERS)
    = Returned csvContent ∧
    (handleExportCSV h data w).1 = Returned () ∧
    exportLoading after = false ∧
    downloadCalls after
    = (downloadCalls w ++ [(csvContent, filename, "text/csv")])%list ∧
    clearTimers after = (clearTimers w ++ [5000%nat])%list ∧
    match deliver h csvContent filename "text/csv" with
    | None =>
        exportMessage after
        = "Successfully exported " +:+ pretty (S (List.length rs))
          +:+ " reports to " +:+ filename
    | Some _ =>
        exportMessage after
        = "Export failed: CSV export failed: Failed to download file" ∧
        isErrorMessage (exportMessage after) = true
    end.
Proof.
  intros data filename after. subst after.
  eexists. split; [apply convertToCSV_reports|].
  rewrite handleExportCSV_cases. subst data. cbv iota.
  rewrite exportAsCSV_nonempty_reports. cbv zeta. fold filename.
  by destruct (deliver h _ filename "text/csv").
Qed.

(** X7. Whenever the export button is enabled, the list is loaded and
    not empty, so a click never ends on the message No data to export: it
    enters downloadFile once and leaves the loading flag off, which
    enables the button again for the same list. *)
Theorem enabled_export_button_always_exports h data w :
  exportDisabled w data = false →
  let after := (handleExportCSV h data w).2 in
  exportMessage after ≠ "No data to export" ∧
  List.length (downloadCalls after) = S (List.length (downloadCalls w)) ∧
  exportDisabled after data = false.
Proof.
  unfold exportDisabled. intros Henabled.
  apply orb_false_elim in Henabled as [_ Hdata].
  destruct data as [[|r rs]|]; try discriminate.
  rewrite handleExportCSV_cases. cbv iota.
  rewrite exportAsCSV_nonempty_reports. cbv zeta.
  destruct (deliver h _ _ _); simpl; rewrite length_app; simpl;
    repeat split; try discriminate; lia.
Qed.

Lemma enabled_export_button_always_exports_witness :
  List.length
    (downloadCalls
       (handleExportCSV Samples.brokenHost (Some [Samples.draft]) Samples.idle).2)
  = 1%nat.
Proof.
  exact (proj1 (proj2 (enabled_export_button_always_exports
                         Samples.brokenHost (Some [Samples.draft]) Samples.idle
                         eq_refl))).
Defined.

(** ** More on useDebounce *)

Section DebounceMore.
Import Debounce.
Context {V : Type} `{EqDecision V}.
Variable delay : nat.
Local Open Scope nat_scope.

Implicit Types (s : hook V) (e : event V) (evs : list (event V)) (v : V).

(** X8. After unmount no timer is left: however long one waits, the
    output stays what it was and no timer ever appears. *)
Theorem unmount_cancels_the_timer s (waits : list nat) :
  let s' := run delay (unmount s) (map Elapse waits) in
  debouncedValue s' = debouncedValue s ∧ timer s' = None ∧
  Forall (λ between, debouncedValue between = debouncedValue s)
         (trace delay (unmount s) (map Elapse waits)).
Proof.
  assert (Hgen : ∀ s0, timer s0 = None →
            debouncedValue (run delay s0 (map Elapse waits)) = debouncedValue s0 ∧
            timer (run delay s0 (map Elapse waits)) = None ∧
            Forall (λ between, debouncedValue between = debouncedValue s0)
                   (trace delay s0 (map Elapse waits))).
  { induction waits as [|dt waits IH]; intros s0 Hnone; simpl.
    { by repeat split. }
    assert (Hstep : elapse dt s0
                    = Hook (debouncedValue s0) (deps s0) None (clock s0 + dt))
      by (unfold elapse; by rewrite Hnone).
    destruct (IH (elapse dt s0)) as (Hout & Htimer & Htrace).
    { by rewrite Hstep. }
    rewrite Hstep in *. simpl in *. repeat split; try done.
    by constructor. }
  intros s'. subst s'.
  change (debouncedValue s) with (debouncedValue (unmount s)).
  by apply Hgen.
Qed.

(** A property of values that holds of the output, of the value a pending
    timer captured and of every input to come holds of every output. *)
Lemma trace_outputs (P : V → Prop) evs s :
  P (debouncedValue s) →
  (∀ due v, timer s = Some (due, v) → P v) →
  (∀ v, Input v ∈ evs → P v) →
  Forall (λ s', P (debouncedValue s')) (trace delay s evs).
Proof.
  revert s. induction evs as [|e evs IH]; intros s Hout Htimer Hin; simpl.
  { constructor. }
  assert (Hstep : P (debouncedValue (step delay s e)) ∧
                  ∀ due v, timer (step delay s e) = Some (due, v) → P v).
  { destruct e as [v|dt]; simpl.
    - unfold useDebounce. destruct (decide _); [done|]. simpl.
      split; [done|]. intros due v' [= _ <-]. apply Hin, list_elem_of_here.
    - unfold elapse. destruct (timer s) as [[due v]|] eqn:E; simpl.
      + destruct (due <=? clock s + dt); simpl.
        * split; [by apply (Htimer due)|]. done.
        * split; [done|]. intros due' v' [= <- <-]. by apply (Htimer due).
      + done. }
  destruct Hstep as [Hout' Htimer'].
  constructor; [done|]. apply IH; try done.
  intros v Hv. by apply Hin, list_elem_of_further.
Qed.

(** X9. The hook never outputs a value it was not given: in every state
    after mount the output is the initial value or one of the values
    rendered so far or later in the run. *)
Theorem debounced_output_is_an_input (now : nat) (v0 : V) evs :
  Forall (λ s, debouncedValue s = v0 ∨ Input (debouncedValue s) ∈ evs)
         (trace delay (mount now v0 delay) evs).
Proof.
  apply (trace_outputs (λ v, v = v0 ∨ Input v ∈ evs)).
  - by left.
  - intros due v [= _ <-]. by left.
  - intros v Hv. by right.
Qed.

(** X10. On mount the output is the input at once, and while the input
    stays the same it remains so: the timer the first effect schedules
    changes nothing when it fires. *)
Theorem mounted_output_is_the_input (now : nat) (v0 : V) evs :
  quiet v0 evs →
  debouncedValue (mount now v0 delay) = v0 ∧
  Forall (λ s, debouncedValue s = v0) (trace delay (mount now v0 delay) evs).
Proof.
  intros Hq. split; [done|].
  pose proof (quiet_trace delay evs (mount now v0 delay)
                (mount_invariant delay now v0) Hq) as Htrace.
  eapply Forall_impl; [exact Htrace|]. by intros s [->| ->].
Qed.

End DebounceMore.

Lemma mounted_output_is_the_input_witness :
  Forall (λ s, Debounce.debouncedValue s = "abc")
    (Debounce.trace 300 (Debounce.mount 0 "abc" 300)
       [Debounce.Elapse 100; Debounce.Input "abc"; Debounce.Elapse 400]).
Proof.
  apply (mounted_output_is_the_input 300 0%nat "abc").
  repeat constructor.
Defined.

(** ** More on FiltersForm *)

Section FiltersFormMore.
Import FiltersForm.
Local Open Scope nat_scope.

Implicit Types (init f o : gmap string prim) (st : form) (d : prim).

Lemma useDebounce_input (v : prim) (delay : nat) (s : Debounce.hook prim) :
  Debounce.input (Debounce.useDebounce v delay s) = v.
Proof.
  unfold Debounce.useDebounce, Debounce.input.
  destruct (decide _) as [Heq|]; [|done]. by rewrite <- Heq.
Qed.

Lemma useDebounce_output (v : prim) (delay : nat) (s : Debounce.hook prim) :
  Debounce.debouncedValue (Debounce.useDebounce v delay s)
  = Debounce.debouncedValue s.
Proof. unfold Debounce.useDebounce. by destruct (decide _). Qed.

Lemma render_committed init st :
  Debounce.settled_or_pending 300 (searchHook st) →
  committed (render init st).
Proof.
  intros Hs. unfold render, committed, debouncedSearch.
  pose proof (step_invariant 300 (searchHook st)
                (Debounce.Input (get (filters st) "search")) Hs) as Hs'.
  simpl in Hs'.
  destruct (decide _) as [Heq|]; simpl;
    (split; [done|]); (split; [done|]); apply useDebounce_input.
Qed.

(** A second render of a committed state changes nothing. *)
Lemma render_of_committed init st : committed st → render init st = st.
Proof.
  intros (Hdeps & Hs & Hin). unfold render.
  assert (Hhook : Debounce.useDebounce (get (filters st) "search") 300
                    (searchHook st) = searchHook st).
  { unfold Debounce.useDebounce. destruct (decide _) as [|Hne]; [done|].
    exfalso. apply Hne. destruct Hs as [Hd _].
    unfold Debounce.input in Hin.
    destruct (Debounce.deps (searchHook st)); simpl in *. by subst. }
  rewrite Hhook. fold (debouncedSearch st).
  destruct (decide _) as [|Hne]; [by destruct st|]. by destruct (Hne (eq_sym Hdeps)).
Qed.

Lemma mount_committed init now : committed (mount init now).
Proof.
  unfold committed, mount, debouncedSearch. simpl.
  split; [done|]. split; [apply mount_invariant|done].
Qed.

Lemma step_committed init st e : committed st → committed (step init st e).
Proof.
  intros (_ & Hs & _).
  destruct e as [c v|v| | |dt]; simpl; apply render_committed; simpl; try done.
  apply (step_invariant 300 (searchHook st) (Debounce.Elapse dt) Hs).
Qed.

Lemma run_committed init now evs : committed (run init now evs).
Proof.
  unfold run.
  assert (Hgen : ∀ st, committed st → committed (fold_left (step init) evs st)).
  { induction evs as [|e evs IH]; intros st Hst; simpl; [done|].
    by apply IH, step_committed. }
  apply Hgen, mount_committed.
Qed.

(** What a render emits, read off the state before it: nothing when the
    dependencies of the effect are as they were, else what the effect
    decides. *)
Lemma render_emits init st :
  submitted (render init st)
  = (submitted st ++
     if decide (depsOf (filters st) (debouncedSearch st) = effectDeps st)
     then []
     else autoSubmit init (filters st) (debouncedSearch st))%list.
Proof.
  unfold render. rewrite useDebounce_output. fold (debouncedSearch st).
  destruct (decide _); simpl; [by rewrite app_nil_r|done].
Qed.

(** X11. Typing in the search box never calls the apply-filters callback
    by itself: in any state the form reaches, a change of the search text
    leaves the list of calls as it was and only restarts the debounce. *)
Theorem search_keystroke_emits_nothing init (now : nat) evs (v : string) :
  let st := run init now evs in
  submitted (step init st (Search v)) = submitted st ∧
  debouncedSearch (step init st (Search v)) = debouncedSearch st ∧
  get (filters (step init st (Search v))) "search" = PStr v.
Proof.
  intros st. destruct (run_committed init now evs) as (Hdeps & _ & _).
  fold st in Hdeps. simpl step. split; [|split].
  - rewrite render_emits. simpl.
    change (debouncedSearch (handleSearchChange (PStr v) st))
      with (debouncedSearch st).
    assert (Hsame : depsOf (<["search" := PStr v]> (filters st)) (debouncedSearch st)
                    = effectDeps st).
    { rewrite Hdeps. unfold depsOf, get.
      by rewrite !lookup_insert_ne by done. }
    rewrite Hsame. destruct (decide _); [by rewrite app_nil_r|done].
  - unfold render. destruct (decide _); simpl; apply useDebounce_output.
  - unfold render. destruct (decide _); simpl; unfold get;
      by rewrite lookup_insert_eq.
Qed.

(** X12. The pending label is shown only while a timer is pending that
    holds the current search text and is due within 300 milliseconds;
    once 300 milliseconds pass without typing the label is gone. *)
Theorem searching_label_means_pending_timer init (now : nat) evs :
  let st := run init now evs in
  (searching st = true →
   ∃ due, Debounce.timer (searchHook st) = Some (due, get (filters st) "search") ∧
          due ≤ Debounce.clock (searchHook st) + 300) ∧
  ∀ dt, 300 ≤ dt → searching (step init st (Wait dt)) = false.
Proof.
  intros st. destruct (run_committed init now evs) as (_ & Hs & Hin).
  fold st in Hs, Hin. split.
  - unfold searching, strict_eq, debouncedSearch.
    intros Hne%negb_true_iff%bool_decide_eq_false.
    destruct Hs as [_ Hs].
    destruct (Debounce.timer (searchHook st)) as [[due v]|].
    + destruct Hs as [-> Hdue]. exists due. by rewrite Hin.
    + by rewrite Hin in Hs.
  - intros dt Hdt.
    destruct (step_committed init st (Wait dt) (run_committed init now evs))
      as (_ & _ & Hin').
    pose proof (quiet_settles 300 (searchHook st) [] dt Hs) as Hsettle.
    simpl in Hsettle. specialize (Hsettle ltac:(constructor) Hdt).
    unfold searching, strict_eq. apply negb_false_iff, bool_decide_eq_true.
    simpl step. unfold render. simpl.
    destruct (decide _); simpl; unfold debouncedSearch; simpl;
      by rewrite useDebounce_output, Hsettle.
Qed.

Lemma handleSubmit_committed st : committed st → committed (handleSubmit st).
Proof. done. Qed.

(** X13. A click on Apply Filters, in any state the form reaches, calls
    the callback exactly once, with the filter state in which search is
    the debounced search, and changes nothing else; so while the pending
    label is shown the search it sends is not the text in the box. *)
Theorem manual_submit_sends_debounced_search init (now : nat) evs :
  let st := run init now evs in
  let sent := currentFilters (filters st) (debouncedSearch st) in
  step init st SubmitClick
  = Form (filters st) (searchHook st) (effectDeps st)
         (submitted st ++ [(FromSubmit, sent)]) ∧
  get sent "search" = debouncedSearch st ∧
  (searching st = true → get sent "search" ≠ get (filters st) "search").
Proof.
  intros st sent. pose proof (run_committed init now evs) as Hc. fold st in Hc.
  split; [|split].
  - simpl step. by rewrite render_of_committed by by apply handleSubmit_committed.
  - unfold sent, currentFilters, get. by rewrite lookup_insert_eq.
  - unfold searching, strict_eq.
    intros Hne%negb_true_iff%bool_decide_eq_false.
    unfold sent, currentFilters, get at 1. by rewrite lookup_insert_eq.
Qed.

Lemma depsOf_insert_control f c (x : prim) d :
  depsOf (<[controlField c := x]> f) d = depsOf f d ↔
  get f (controlField c) = x.
Proof.
  destruct c; unfold depsOf, get; simpl;
    rewrite lookup_insert_eq, !lookup_insert_ne by done; simpl;
    (split; [by intros [= ->]|by intros ->]).
Qed.

(** X14. A change of one of the five select or date controls is applied
    at once, without debounce: if the control gets the value it already
    has nothing is emitted; otherwise the effect runs in the same step on
    the new state, with the debounced search, and emits it when it
    differs from the initial filters. The debounce hook is not touched. *)
Theorem control_change_is_applied_at_once
    init (now : nat) evs (c : control) (v : string) :
  let st := run init now evs in
  let changed := <[controlField c := PStr v]> (filters st) in
  filters (step init st (Change c v)) = changed ∧
  searchHook (step init st (Change c v)) = searchHook st ∧
  submitted (step init st (Change c v))
  = (submitted st ++
     if decide (get (filters st) (controlField c) = PStr v) then []
     else autoSubmit init changed (debouncedSearch st))%list.
Proof.
  intros st changed. pose proof (run_committed init now evs) as Hc. fold st in Hc.
  destruct Hc as (Hdeps & Hs & Hin).
  assert (Hsearch : get changed "search" = get (filters st) "search").
  { unfold changed, get. by destruct c; rewrite lookup_insert_ne. }
  assert (Hhook : Debounce.useDebounce (get changed "search") 300 (searchHook st)
                  = searchHook st).
  { rewrite Hsearch. unfold Debounce.useDebounce.
    destruct (decide _) as [|Hne]; [done|].
    exfalso. apply Hne. destruct Hs as [Hd _]. unfold Debounce.input in Hin.
    destruct (Debounce.deps (searchHook st)); simpl in *. by subst. }
  simpl step. split; [|split].
  - unfold render. by destruct (decide _).
  - unfold render. simpl. fold changed. rewrite Hhook. by destruct (decide _).
  - rewrite render_emits. simpl. fold changed.
    change (debouncedSearch (handleChange (controlField c) (PStr v) st))
      with (debouncedSearch st).
    rewrite Hdeps. f_equal.
    destruct (decide (depsOf changed _ = _)) as [Heq|Hne],
             (decide (get (filters st) (controlField c) = PStr v)) as [Hv|Hv];
      try done.
    + by apply depsOf_insert_control in Heq.
    + destruct Hne. by apply depsOf_insert_control.
Qed.

(** X15. When Reset is clicked while the debounced search is still a text
    that differs from the initial search and one of the five controls is
    set, the callback is called twice in that step: first with the six
    empty fields, then by the effect with the old search text put back
    into them. *)
Theorem reset_is_followed_by_the_old_search
    init (now : nat) evs (q : string) (c : control) :
  let st := run init now evs in
  debouncedSearch st = PStr q →
  PStr q ≠ or (get init "search") (PStr "") →
  get (filters st) (controlField c) ≠ PStr "" →
  submitted (step init st ResetClick)
  = (submitted st ++
     [(FromReset, resetFilters);
      (FromEffect, <["search" := PStr q]> resetFilters)])%list.
Proof.
  intros st Hq Hbase Hset.
  pose proof (run_committed init now evs) as Hc. fold st in Hc.
  destruct Hc as (Hdeps & _ & _).
  simpl step. rewrite render_emits. simpl.
  change (debouncedSearch (handleReset st)) with (debouncedSearch st).
  rewrite Hq. rewrite <- app_assoc. f_equal. simpl. f_equal.
  destruct (decide _) as [Heq|_].
  - exfalso. rewrite Hdeps, Hq in Heq. apply Hset.
    assert (Hreset : get resetFilters (controlField c) = PStr "")
      by by destruct c.
    rewrite <- Hreset.
    destruct c; unfold depsOf in Heq; simpl; congruence.
  - unfold autoSubmit.
    assert (Hch : hasChanged init (currentFilters resetFilters (PStr q)) = true).
    { apply hasChanged_true. exists "search". unfold currentFilters, get.
      rewrite lookup_insert_eq. split; [by eexists|]. exact Hbase. }
    by rewrite Hch.
Qed.

End FiltersFormMore.

Lemma reset_is_followed_by_the_old_search_witness :
  let evs := [FiltersForm.Search "abc"; FiltersForm.Change FiltersForm.Status "draft";
              FiltersForm.Wait 400] in
  FiltersForm.submitted
    (FiltersForm.step ∅ (FiltersForm.run ∅ 0 evs) FiltersForm.ResetClick)
  = (FiltersForm.submitted (FiltersForm.run ∅ 0 evs) ++
     [(FiltersForm.FromReset, FiltersForm.resetFilters);
      (FiltersForm.FromEffect,
       <["search" := PStr "abc"]> FiltersForm.resetFilters)])%list.
Proof.
  apply (reset_is_followed_by_the_old_search ∅ 0%nat
           [FiltersForm.Search "abc";
            FiltersForm.Change FiltersForm.Status "draft";
            FiltersForm.Wait 400] "abc" FiltersForm.Status).
  - by vm_compute.
  - by vm_compute.
  - by vm_compute.
Defined.

(** ** The shape of what the form emits *)

Section FiltersFormTyped.
Import FiltersForm.
Local Open Scope nat_scope.

Implicit Types (init f o : gmap string prim) (st : form) (d : prim).

Lemma or_default_isString init key :
  stringValued init → isString (or (get init key) (PStr "")).
Proof.
  intros Hstr. unfold get.
  destruct (init !! key) as [v|] eqn:E; simpl; [|by eexists].
  destruct (Hstr key v E) as [s ->]. unfold or.
  destruct (truthy (PStr s)); by eexists.
Qed.

Lemma filterState_initialState init :
  partialFilterState init → filterState (initialState init).
Proof.
  intros Hp. split; [by apply sixFields_initialState|].
  pose proof (partialFilterState_stringValued init Hp) as Hstr.
  intros k v Hk. unfold initialState in Hk.
  apply lookup_union_Some_raw in Hk as [Hk|[_ Hk]]; [by apply (Hstr k)|].
  apply elem_of_list_to_map_2 in Hk.
  repeat (apply elem_of_cons in Hk as [[= _ ->]|Hk];
          [by apply or_default_isString|]).
  by apply elem_of_nil in Hk.
Qed.

Lemma filterState_resetFilters : filterState resetFilters.
Proof.
  split; [apply sixFields_resetFilters|].
  intros k v Hk. unfold resetFilters in Hk.
  apply elem_of_list_to_map_2 in Hk.
  repeat (apply elem_of_cons in Hk as [[= _ ->]|Hk]; [by eexists|]).
  by apply elem_of_nil in Hk.
Qed.

Lemma filterState_insert f key (s : string) :
  key ∈ fieldNames → filterState f → filterState (<[key := PStr s]> f).
Proof.
  intros Hkey [Hsix Hstr]. split; [by apply sixFields_insert|].
  intros k v Hk. apply lookup_insert_Some in Hk as [[_ <-]|[_ Hk]].
  - by eexists.
  - by apply (Hstr k).
Qed.

Lemma filterState_get f key :
  filterState f → key ∈ fieldNames → isString (get f key).
Proof.
  intros [Hsix Hstr] Hkey.
  apply (sixFields_is_Some f key Hsix) in Hkey as [v Hv].
  unfold get. rewrite Hv. simpl. by apply (Hstr key).
Qed.

Lemma filterState_currentFilters f d :
  filterState f → isString d → filterState (currentFilters f d).
Proof.
  intros Hf [s ->]. apply filterState_insert; [apply search_fieldNames|done].
Qed.

Lemma autoSubmit_filterState init f d x o :
  filterState f → isString d → (x, o) ∈ autoSubmit init f d → filterState o.
Proof.
  intros Hf Hd Hin. apply autoSubmit_elem in Hin as [[= _ ->] _].
  by apply filterState_currentFilters.
Qed.

Lemma render_wellTyped init st : wellTyped st → wellTyped (render init st).
Proof.
  intros (Hf & Hd & Ht & Hlog).
  assert (Hhook : isString (debouncedSearch (render init st)) ∧
            ∀ due v, Debounce.timer (searchHook (render init st)) = Some (due, v) →
                     isString v).
  { assert (Hu : isString (Debounce.debouncedValue
                   (Debounce.useDebounce (get (filters st) "search") 300 (searchHook st))) ∧
                 ∀ due v, Debounce.timer
                   (Debounce.useDebounce (get (filters st) "search") 300 (searchHook st))
                   = Some (due, v) → isString v).
    { rewrite useDebounce_output. split; [exact Hd|].
      unfold Debounce.useDebounce. destruct (decide _); [exact Ht|].
      simpl. intros due v [= _ <-].
      apply filterState_get; [done|apply search_fieldNames]. }
    unfold render, debouncedSearch. by destruct (decide _). }
  destruct Hhook as [Hd' Ht'].
  split; [|split; [done|split; [done|]]].
  - unfold render. by destruct (decide _).
  - intros x o. rewrite render_emits. intros [Hin|Hin]%elem_of_app.
    + by apply (Hlog x).
    + destruct (decide _); [by apply elem_of_nil in Hin|].
      by apply (autoSubmit_filterState init (filters st) (debouncedSearch st) x).
Qed.

Lemma mount_wellTyped init now :
  partialFilterState init → wellTyped (mount init now).
Proof.
  intros Hp. pose proof (filterState_initialState init Hp) as Hf.
  assert (Hs : isString (get (initialState init) "search"))
    by (apply filterState_get; [done|apply search_fieldNames]).
  unfold wellTyped, mount, debouncedSearch. simpl.
  split; [done|]. split; [done|]. split.
  - by intros due v [= _ <-].
  - intros x o Hin.
    by apply (autoSubmit_filterState init (initialState init)
                (get (initialState init) "search") x).
Qed.

Lemma step_wellTyped init st e : wellTyped st → wellTyped (step init st e).
Proof.
  intros (Hf & Hd & Ht & Hlog).
  destruct e as [c v|v| | |dt]; simpl; apply render_wellTyped.
  - split; [|done]. simpl.
    apply filterState_insert; [apply controlField_fieldNames|done].
  - split; [|done]. simpl.
    apply filterState_insert; [apply search_fieldNames|done].
  - split; [done|]. split; [done|]. split; [done|]. simpl.
    intros x o [Hin|Hin]%elem_of_app; [by apply (Hlog x)|].
    apply list_elem_of_singleton in Hin as [= _ ->].
    by apply filterState_currentFilters.
  - split; [apply filterState_resetFilters|]. split; [done|]. split; [done|].
    simpl. intros x o [Hin|Hin]%elem_of_app; [by apply (Hlog x)|].
    apply list_elem_of_singleton in Hin as [= _ ->].
    apply filterState_resetFilters.
  - split; [done|]. unfold debouncedSearch. simpl.
    unfold Debounce.elapse.
    destruct (Debounce.timer (searchHook st)) as [[due v]|] eqn:E; simpl.
    + destruct (due <=? _); simpl.
      * split; [by apply (Ht due)|]. done.
      * split; [done|]. split; [|done].
        intros due' v' [= <- <-]. by apply (Ht due).
    + done.
Qed.

(** X16. When initialFilters is a partial FilterState, every call of the
    apply-filters callback the form ever makes, whether by the effect, by
    Apply Filters or by Reset, passes an object with exactly the six
    filter fields, each holding a string. *)
Theorem every_emission_is_a_filter_state init (now : nat) evs :
  partialFilterState init →
  ∀ x o, (x, o) ∈ submitted (run init now evs) →
    (∀ key, is_Some (o !! key) ↔ key ∈ fieldNames) ∧
    ∀ key, key ∈ fieldNames → ∃ s, get o key = PStr s.
Proof.
  intros Hp.
  assert (Hgen : ∀ st, wellTyped st → wellTyped (fold_left (step init) evs st)).
  { induction evs as [|e evs IH]; intros st Hst; simpl; [done|].
    by apply IH, step_wellTyped. }
  destruct (Hgen _ (mount_wellTyped init now Hp)) as (_ & _ & _ & Hlog).
  intros x o Hin. specialize (Hlog x o Hin). split.
  - intros key. by apply sixFields_is_Some, Hlog.
  - intros key Hkey. by apply (filterState_get o key Hlog).
Qed.

End FiltersFormTyped.

Lemma every_emission_is_a_filter_state_witness :
  Forall (λ call,
            (∀ key, is_Some (call.2 !! key) ↔ key ∈ FiltersForm.fieldNames) ∧
            ∀ key, key ∈ FiltersForm.fieldNames →
                   ∃ s, FiltersForm.get call.2 key = PStr s)
    (FiltersForm.submitted
       (FiltersForm.run Samples.draftOnly 0
          [FiltersForm.Search "abc"; FiltersForm.Wait 300;
           FiltersForm.ResetClick; FiltersForm.SubmitClick])).
Proof.
  apply Forall_forall. intros [x o] Hin.
  apply (every_emission_is_a_filter_state Samples.draftOnly 0%nat
           [FiltersForm.Search "abc"; FiltersForm.Wait 300;
            FiltersForm.ResetClick; FiltersForm.SubmitClick]
           ltac:(intros k v Hk; unfold Samples.draftOnly in Hk;
                 apply lookup_singleton_Some in Hk as [<- <-];
                 split; [apply list_elem_of_here|by eexists])
           x o Hin).
Defined.

(** ** Typing, then a pause *)

Section FiltersFormPause.
Import FiltersForm.
Local Open Scope nat_scope.

Implicit Types (init f o : gmap string prim) (st : form) (d : prim).

Lemma depsOf_search_only f d d' : depsOf f d = depsOf f d' ↔ d = d'.
Proof. unfold depsOf. split; [by intros [= ->]|by intros ->]. Qed.

(** X17. In any state the form reaches, typing a search text and then
    letting at least 300 milliseconds pass makes the debounced search that
    text, and the callback is called at most once on the way, by the
    effect when the wait ends: not at all if the debounced search already
    was that text, and otherwise exactly when the new combined filters
    differ from the initial ones. *)
Theorem typed_search_is_applied_after_the_pause
    init (now : nat) evs (v : string) (dt : nat) :
  300 ≤ dt →
  let st := run init now evs in
  let typed := step init st (Search v) in
  let paused := step init typed (Wait dt) in
  submitted typed = submitted st ∧
  debouncedSearch paused = PStr v ∧
  submitted paused
  = (submitted st ++
     if decide (debouncedSearch st = PStr v) then []
     else autoSubmit init (filters typed) (PStr v))%list.
Proof.
  intros Hdt st typed paused.
  pose proof (run_committed init now evs) as Hst. fold st in Hst.
  pose proof (step_committed init st (Search v) Hst) as Htyped. fold typed in Htyped.
  destruct Htyped as (Hdeps & Hs & Hin).
  assert (Hlog : submitted typed = submitted st ∧
                 debouncedSearch typed = debouncedSearch st ∧
                 get (filters typed) "search" = PStr v).
  { subst typed. simpl step. split; [|split].
    - rewrite render_emits. simpl.
      change (debouncedSearch (handleSearchChange (PStr v) st))
        with (debouncedSearch st).
      destruct Hst as (Hd & _ & _).
      assert (Hsame : depsOf (<["search" := PStr v]> (filters st)) (debouncedSearch st)
                      = effectDeps st).
      { rewrite Hd. unfold depsOf, get. by rewrite !lookup_insert_ne by done. }
      rewrite Hsame. destruct (decide _); [by rewrite app_nil_r|done].
    - unfold render. destruct (decide _); simpl; apply useDebounce_output.
    - unfold render. destruct (decide _); simpl; unfold get;
        by rewrite lookup_insert_eq. }
  destruct Hlog as (Hsub & Hdeb & Hsearch).
  pose proof (quiet_settles 300 (searchHook typed) [] dt Hs) as Hsettle.
  simpl in Hsettle. specialize (Hsettle ltac:(constructor) Hdt).
  rewrite Hin, Hsearch in Hsettle.
  split; [exact Hsub|].
  assert (Hd' : debouncedSearch (tick dt typed) = PStr v) by exact Hsettle.
  split.
  - subst paused. simpl step. unfold debouncedSearch, render.
    destruct (decide _); simpl; rewrite useDebounce_output; exact Hsettle.
  - subst paused. simpl step. rewrite render_emits. rewrite Hd'.
    change (filters (tick dt typed)) with (filters typed).
    change (submitted (tick dt typed)) with (submitted typed).
    change (effectDeps (tick dt typed)) with (effectDeps typed).
    rewrite Hsub, Hdeps, Hdeb. f_equal.
    destruct (decide (depsOf _ _ = _)) as [Heq|Hne],
             (decide (debouncedSearch st = PStr v)) as [Hv|Hv]; try done.
    + apply depsOf_search_only in Heq. by destruct Hv.
    + destruct Hne. by apply depsOf_search_only.
Qed.

End FiltersFormPause.

Lemma typed_search_is_applied_after_the_pause_witness :
  FiltersForm.debouncedSearch
    (FiltersForm.step ∅
       (FiltersForm.step ∅ (FiltersForm.run ∅ 0 []) (FiltersForm.Search "abc"))
       (FiltersForm.Wait 300))
  = PStr "abc".
Proof.
  exact (proj1 (proj2 (typed_search_is_applied_after_the_pause
                         ∅ 0%nat [] "abc" 300 (le_n 300)))).
Defined.
